(** * SirChatalot image engines ([chatutils/image_engines.py])

    A shallow embedding of the two image generation engines, [DalleEngine]
    and [StabilityEngine]: the per-identity sliding-window rate limiter, the
    directive parser that [imagine] runs over the prompt, the request each
    engine builds, the classification of the provider's answer, and the
    [generate_image] wrapper.

    Conventions.
    - A Python [str] is the list of its Unicode code points ([pystr]).
    - [time.time()] is an input of every rate-limit check.  Timestamps are
      rationals: the float subtraction [current_time - t] of two epoch times
      is exact (both lie within a factor two of each other), so comparing
      the exact difference with the integer window is what the code does.
    - The provider (the OpenAI client, [requests.post]) is an oracle from
      the request to an answer or an exception.
    - Statements that may raise live in the [outcome] monad; [try/except]
      is a match on its result. *)

From Stdlib Require Import ZArith QArith Lia Lqa Ascii String.
From stdpp Require Import base option list gmap.

Local Open Scope Z_scope.

(** ** Python strings *)

Module Py.

Definition pystr : Type := list N.

(** An ASCII literal of the source as a [pystr]. *)
Definition lit (s : string) : pystr :=
  List.map N_of_ascii (list_ascii_of_string s).

Fixpoint startswith (pre s : pystr) : bool :=
  match pre, s with
  | [], _ => true
  | _ :: _, [] => false
  | a :: pre', b :: s' => if N.eqb a b then startswith pre' s' else false
  end.

(** [sub in s] *)
Fixpoint contains (sub s : pystr) : bool :=
  startswith sub s ||
  match s with
  | [] => false
  | _ :: s' => contains sub s'
  end.

(** [s.replace(old, new)]: the occurrences of [old] are found left to
    right and do not overlap.  [skip] counts the characters of a matched
    occurrence that are still to be passed over. *)
Fixpoint replace_from (old new : pystr) (skip : nat) (s : pystr) : pystr :=
  match s with
  | [] => []
  | c :: s' =>
      match skip with
      | S k => replace_from old new k s'
      | O =>
          if startswith old s
          then new ++ replace_from old new (Nat.pred (length old)) s'
          else c :: replace_from old new O s'
      end
  end.

Definition replace (old new s : pystr) : pystr :=
  match old with
  | [] => new ++ List.concat (List.map (fun c => c :: new) s)
  | _ :: _ => replace_from old new O s
  end.

(** [s.split(sep)] for a separator that is not empty. *)
Fixpoint split_from (sep : pystr) (skip : nat) (cur : pystr) (s : pystr)
  : list pystr :=
  match s with
  | [] => [List.rev cur]
  | c :: s' =>
      match skip with
      | S k => split_from sep k cur s'
      | O =>
          if startswith sep s
          then List.rev cur :: split_from sep (Nat.pred (length sep)) [] s'
          else split_from sep O (c :: cur) s'
      end
  end.

Definition split (sep s : pystr) : list pystr := split_from sep O [] s.

(** The characters [str.isspace] accepts; [strip()] and [split()] without
    argument use the same set. *)
Definition isspace (c : N) : bool :=
  ((9 <=? c) && (c <=? 13) || (28 <=? c) && (c <=? 32) ||
   (c =? 133) || (c =? 160) || (c =? 5760) ||
   (8192 <=? c) && (c <=? 8202) || (c =? 8232) || (c =? 8233) ||
   (c =? 8239) || (c =? 8287) || (c =? 12288))%N.

Fixpoint lstrip (s : pystr) : pystr :=
  match s with
  | c :: s' => if isspace c then lstrip s' else s
  | [] => []
  end.

Definition rstrip (s : pystr) : pystr := List.rev (lstrip (List.rev s)).

Definition strip (s : pystr) : pystr := rstrip (lstrip s).

(** [s.split()]: the maximal runs of characters that are not whitespace. *)
Fixpoint words_from (cur : pystr) (s : pystr) : list pystr :=
  match s with
  | [] => match cur with [] => [] | _ :: _ => [List.rev cur] end
  | c :: s' =>
      if isspace c
      then match cur with
           | [] => words_from [] s'
           | _ :: _ => List.rev cur :: words_from [] s'
           end
      else words_from (c :: cur) s'
  end.

Definition words (s : pystr) : list pystr := words_from [] s.

(** [str(n)] for an [int]. *)
Definition digit_char (d : Z) : N := Z.to_N (48 + d).

Fixpoint digits_fuel (fuel : nat) (n : Z) (acc : pystr) : pystr :=
  match fuel with
  | O => acc
  | S fuel' =>
      let acc' := digit_char (n mod 10) :: acc in
      if n <? 10 then acc' else digits_fuel fuel' (n / 10) acc'
  end.

Definition str_of_nonneg (n : Z) : pystr :=
  digits_fuel (S (Z.to_nat (Z.log2 n))) n [].

Definition str_of_int (n : Z) : pystr :=
  if n <? 0 then 45%N :: str_of_nonneg (- n) else str_of_nonneg n.

(** [int(s)] on a stripped word: an optional sign and ASCII digits with
    single underscores between digits.  Python also reads the decimal
    digits of other scripts; on those this parser answers [None]. *)
Definition is_digit (c : N) : bool := ((48 <=? c) && (c <=? 57))%N.

Fixpoint parse_digits (acc : Z) (s : pystr) : option Z :=
  match s with
  | [] => Some acc
  | c :: s' =>
      if is_digit c then parse_digits (10 * acc + (Z.of_N c - 48)) s'
      else if (c =? 95)%N
           then match s' with
                | d :: _ => if is_digit d then parse_digits acc s' else None
                | [] => None
                end
           else None
  end.

Definition parse_unsigned (s : pystr) : option Z :=
  match s with
  | c :: _ => if is_digit c then parse_digits 0 s else None
  | [] => None
  end.

Definition int_of_str (s : pystr) : option Z :=
  match strip s with
  | 45%N :: s' => Z.opp <$> parse_unsigned s'
  | 43%N :: s' => parse_unsigned s'
  | s' => parse_unsigned s'
  end.

(** [round(w / 60)]: Python rounds halves to the even neighbour. *)
Definition round_div (w d : Z) : Z :=
  let q := w / d in
  let r := w mod d in
  if 2 * r <? d then q
  else if d <? 2 * r then q + 1
  else if Z.even q then q else q + 1.

(** [s.encode("utf-8")]; a surrogate raises [UnicodeEncodeError]. *)
Definition utf8_char (c : N) : option (list Z) :=
  let z := Z.of_N c in
  if z <? 128 then Some [z]
  else if z <? 2048 then Some [192 + z / 64; 128 + z mod 64]
  else if (55296 <=? z) && (z <=? 57343) then None
  else if z <? 65536
       then Some [224 + z / 4096; 128 + (z / 64) mod 64; 128 + z mod 64]
  else if z <? 1114112
       then Some [240 + z / 262144; 128 + (z / 4096) mod 64;
                  128 + (z / 64) mod 64; 128 + z mod 64]
  else None.

Fixpoint encode_utf8 (s : pystr) : option (list Z) :=
  match s with
  | [] => Some []
  | c :: s' =>
      match utf8_char c, encode_utf8 s' with
      | Some bs, Some rest => Some (bs ++ rest)
      | _, _ => None
      end
  end.

(** Whether an occurrence of [old] and an occurrence of [t] in one string
    can share a character: [tails s] are the suffixes of [s] that are not
    empty, and two strings are [comparable] when one starts the other. *)
Definition comparable (a b : pystr) : bool := startswith a b || startswith b a.

Fixpoint tails (s : pystr) : list pystr :=
  match s with
  | [] => []
  | _ :: s' => s :: tails s'
  end.

Definition apart (old t : pystr) : bool :=
  forallb (fun t2 => negb (comparable old t2)) (tails t) &&
  forallb (fun o2 => negb (comparable o2 t)) (tails (List.tl old)).

End Py.

Import Py.

(** ** Caller identities and the rate-limit table *)

(** The [id] argument: an [int] (a chat or user id) or a [str] (the
    sentinel ['function']). *)
Inductive identity : Type :=
| IdInt (n : Z)
| IdStr (s : pystr).

#[global] Instance identity_eq_dec : EqDecision identity.
Proof. solve_decision. Defined.

#[global] Instance identity_countable : Countable identity.
Proof.
  refine (inj_countable'
            (fun i => match i with IdInt n => inl n | IdStr s => inr s end)
            (fun x => match x with inl n => IdInt n | inr s => IdStr s end) _).
  intros []; reflexivity.
Defined.

(** [str(id)] *)
Definition str_of_identity (i : identity) : pystr :=
  match i with
  | IdInt n => str_of_int n
  | IdStr s => s
  end.

(** [self.image_rate_limit]: a dict from identity to the list of the
    times of its recent requests. *)
Abbreviation table := (gmap identity (list Q)).

(** ** The rate limiter

    Both engines carry the same method body; it is embedded once, over
    the two settings it reads and the attribute it updates.  The attribute
    [image_rate_limit] exists only when [__init__] found the limiter
    enabled: [None] stands for an engine object without it, where the
    lookup raises inside the [try] and the check answers [True]. *)

Module RateLimit.

(** [current_time - t < window] *)
Definition fresh (window : Z) (now t : Q) : bool :=
  negb (Qle_bool (inject_Z window) (now - t)).

(** [if id not in self.image_rate_limit: self.image_rate_limit[id] = []] *)
Definition ensure_key (id : identity) (m : table) : table :=
  match m !! id with
  | Some _ => m
  | None => <[id := []]> m
  end.

(** [self.image_rate_limit[id].append(current_time)] *)
Definition append_now (id : identity) (now : Q) (m : table) : table :=
  alter (fun h => h ++ [now]) id m.

(** [self.image_rate_limit[id] = [t for t in ... if current_time - t < window]] *)
Definition prune (window : Z) (id : identity) (now : Q) (m : table) : table :=
  <[id := List.filter (fresh window now) (default [] (m !! id))]> m.

Definition image_rate_limit_check
    (count window : Z) (attr : option table) (now : Q) (id : identity)
  : option table * bool :=
  if (count <=? 0) || (window <=? 0) then (attr, true)
  else
    match attr with
    | None => (None, true)
    | Some m =>
        let m1 := ensure_key id m in
        let m2 := append_now id now m1 in
        let m3 := prune window id now m2 in
        if Z.of_nat (length (default [] (m3 !! id))) >? count
        then (Some m3, false)
        else (Some m3, true)
    end.

(** The history of an identity, empty when the key is absent. *)
Definition history (m : table) (id : identity) : list Q :=
  default [] (m !! id).

(** The list the check leaves under [id]. *)
Definition pruned (window : Z) (now : Q) (h : list Q) : list Q :=
  List.filter (fresh window now) (h ++ [now]).

End RateLimit.

(** ** Exceptions, results and control flow *)

(** The exception classes that matter to the handlers.  The OpenAI client
    turns an error status into a class of its own: 400 is
    [BadRequestError], 429 is [RateLimitError], and 401, 403, 404, 409,
    422 and the 5xx codes are further subclasses of [APIStatusError], none
    of them below the two that [imagine] catches by name.  The text an
    exception carries is its [str(e)]. *)
Inductive exn : Type :=
| AttributeError
| IndexError
| KeyError
| ValueError
| UnicodeEncodeError
| BadRequestError (text : pystr)
| RateLimitError (text : pystr)
| APIStatusError (status : Z) (text : pystr)
| APIConnectionError
| RequestException
| JSONDecodeError.

(** The class the OpenAI client raises for an error status. *)
Definition openai_status_error (status : Z) (text : pystr) : exn :=
  if status =? 400 then BadRequestError text
  else if status =? 429 then RateLimitError text
  else APIStatusError status text.

(** What [imagine] returns: [(image, message)], either of them [None]. *)
Definition result : Type := option pystr * option pystr.

(** A block of statements ends by falling through with a value, by a
    [return], or by an exception. *)
Inductive outcome (R A : Type) : Type :=
| Val (a : A)
| Return (r : R)
| Raise (e : exn).
Arguments Val {R A} a.
Arguments Return {R A} r.
Arguments Raise {R A} e.

Definition bind {R A B : Type} (m : outcome R A) (k : A -> outcome R B)
  : outcome R B :=
  match m with
  | Val a => k a
  | Return r => Return r
  | Raise e => Raise e
  end.

Declare Scope outcome_scope.
Delimit Scope outcome_scope with outcome.
Notation "x <- m ;; k" := (bind m (fun x => k))
  (at level 100, m at next level, right associativity) : outcome_scope.


(** [l[i]] *)
Definition index {R A : Type} (l : list A) (i : nat) : outcome R A :=
  match nth_error l i with
  | Some a => Val a
  | None => Raise IndexError
  end.

(** [str(x)] of an optional string: [None] prints as ['None']. *)
Definition str_of_option (o : option pystr) : pystr :=
  match o with
  | Some s => s
  | None => lit "None"
  end.

(** The em dash that [imagine] rewrites to two hyphens. *)
Definition emdash : pystr := [8212%N].

(** The message of a call the limiter denies. *)
Definition rate_limited_message (count window : Z) : pystr :=
  lit "Image generation is rate limited (only " ++ str_of_int count ++
  lit " images per " ++ str_of_int (round_div window 60) ++
  lit " minutes are allowed). Please try again later.".

(** ** SHA-1, as [hashlib.sha1(...).hexdigest()] computes it *)

Module Sha1.

Definition w32 (x : Z) : Z := x mod 4294967296.

Definition rotl (n x : Z) : Z :=
  w32 (Z.lor (Z.shiftl x n) (Z.shiftr x (32 - n))).

Definition be_bytes (k : nat) (x : Z) : list Z :=
  List.map (fun i => (x / 256 ^ Z.of_nat i) mod 256) (List.rev (seq 0 k)).

Definition pad (msg : list Z) : list Z :=
  let len := Z.of_nat (length msg) in
  msg ++ [128] ++ List.repeat 0 (Z.to_nat ((55 - len) mod 64)) ++
  be_bytes 8 (8 * len).

Fixpoint be_words (n : nat) (bs : list Z) : list Z :=
  match n, bs with
  | S n', b0 :: b1 :: b2 :: b3 :: rest =>
      (((b0 * 256 + b1) * 256 + b2) * 256 + b3) :: be_words n' rest
  | _, _ => []
  end.

Definition word_at (ws : list Z) (i : nat) : Z := List.nth i ws 0.

Fixpoint schedule (k : nat) (ws : list Z) : list Z :=
  match k with
  | O => ws
  | S k' =>
      let t := length ws in
      let x := Z.lxor (Z.lxor (word_at ws (t - 3)) (word_at ws (t - 8)))
                      (Z.lxor (word_at ws (t - 14)) (word_at ws (t - 16))) in
      schedule k' (ws ++ [rotl 1 x])
  end.

Definition state : Type := Z * Z * Z * Z * Z.

Definition round (t : nat) (s : state) (w : Z) : state :=
  let '(a, b, c, d, e) := s in
  let '(f, k) :=
    if (t <? 20)%nat
    then (Z.lor (Z.land b c) (Z.land (Z.lxor b 4294967295) d), 1518500249)
    else if (t <? 40)%nat
    then (Z.lxor (Z.lxor b c) d, 1859775393)
    else if (t <? 60)%nat
    then (Z.lor (Z.lor (Z.land b c) (Z.land b d)) (Z.land c d), 2400959708)
    else (Z.lxor (Z.lxor b c) d, 3395469782) in
  (w32 (rotl 5 a + f + e + k + w), a, rotl 30 b, c, d).

Fixpoint rounds (t : nat) (s : state) (ws : list Z) : state :=
  match ws with
  | [] => s
  | w :: ws' => rounds (S t) (round t s w) ws'
  end.

Definition compress (h : state) (block : list Z) : state :=
  let '(h0, h1, h2, h3, h4) := h in
  let '(a, b, c, d, e) := rounds 0 h (schedule 64 (be_words 16 block)) in
  (w32 (h0 + a), w32 (h1 + b), w32 (h2 + c), w32 (h3 + d), w32 (h4 + e)).

Fixpoint blocks (n : nat) (h : state) (bs : list Z) : state :=
  match n with
  | O => h
  | S n' => blocks n' (compress h (firstn 64 bs)) (skipn 64 bs)
  end.

Definition initial : state :=
  (1732584193, 4023233417, 2562383102, 271733878, 3285377520).

Definition digest (msg : list Z) : state :=
  let p := pad msg in blocks (length p / 64) initial p.

Definition hex_char (d : Z) : N :=
  Z.to_N (if d <? 10 then 48 + d else 87 + d).

Definition hex_word (x : Z) : pystr :=
  List.map (fun i => hex_char ((x / 16 ^ Z.of_nat i) mod 16))
           (List.rev (seq 0 8)).

Definition hexdigest (msg : list Z) : pystr :=
  let '(h0, h1, h2, h3, h4) := digest msg in
  hex_word h0 ++ hex_word h1 ++ hex_word h2 ++ hex_word h3 ++ hex_word h4.

End Sha1.

(** ** The DALL-E engine *)

Module DalleEngine.

Local Open Scope outcome_scope.

(** [self.settings], as [load_image_generation_settings] fills it. *)
Record settings : Type := {
  ImageGenModel : pystr;
  ImageGenerationSize : pystr;
  ImageGenerationStyle : pystr;
  ImageGenerationQuality : pystr;
  ImageRateLimitCount : Z;
  ImageRateLimitTime : Z
}.

(** The engine object.  [image_rate_limit] is [None] while the attribute
    has not been created. *)
Record t : Type := {
  config : settings;
  end_user_id : bool;
  image_rate_limit : option table
}.

(** [__init__], after the configuration has been read. *)
Definition init (s : settings) (flag : bool) : t :=
  {| config := s;
     end_user_id := flag;
     image_rate_limit :=
       if (ImageRateLimitCount s >? 0) && (ImageRateLimitTime s >? 0)
       then Some ∅ else None |}.

(** The keyword arguments of [self.client.images.generate]. *)
Record request : Type := {
  model : pystr;
  prompt : pystr;
  size : pystr;
  quality : pystr;
  n : Z;
  response_format : pystr;
  style : pystr;
  user : pystr
}.

(** An element of [response.data].  [revised_prompt] is [None] when
    reading the attribute raises. *)
Record image : Type := {
  b64_json : option pystr;
  revised_prompt : option (option pystr)
}.

Record response : Type := { data : list image }.

Definition provider : Type := request -> exn + response.

(** The arguments of [imagine]. *)
Record args : Type := {
  a_prompt : option pystr;
  a_id : identity;
  a_size : pystr;
  a_style : pystr;
  a_n : Z;
  a_quality : pystr;
  a_revision : bool
}.

(** The defaults of the signature of [imagine]. *)
Definition default_args (p : option pystr) : args :=
  {| a_prompt := p; a_id := IdInt 0; a_size := lit "1024x1024";
     a_style := lit "vivid"; a_n := 1; a_quality := lit "standard";
     a_revision := false |}.

Definition empty_prompt_message : pystr :=
  lit "No text prompt was given. Please try again.".
Definition policy_message : pystr :=
  lit "Your request was rejected because it may violate content policy. Please review it and try again.".
Definition rejected_message : pystr :=
  lit "Your request was rejected. Please review it and try again.".
Definition provider_rate_limit_message : pystr :=
  lit "Service is getting rate limited. Please try again later.".

Definition image_rate_limit_check (e : t) (now : Q) (id : identity)
  : t * bool :=
  let '(attr, ok) :=
    RateLimit.image_rate_limit_check
      (ImageRateLimitCount (config e)) (ImageRateLimitTime (config e))
      (image_rate_limit e) now id in
  ({| config := config e; end_user_id := end_user_id e;
      image_rate_limit := attr |}, ok).

(** The working prompt after the directive tokens have been taken out,
    with the style, quality and size they leave (lines 122 to 143). *)
Definition directives (e : t) (p : pystr) (style quality size : pystr)
  : pystr * pystr * pystr * pystr :=
  let p := replace emdash (lit "--") p in
  let '(style, p) :=
    if contains (lit "--natural") p
    then (lit "natural", replace (lit "--natural") [] p) else (style, p) in
  let '(style, p) :=
    if contains (lit "--vivid") p
    then (lit "vivid", replace (lit "--vivid") [] p) else (style, p) in
  let '(quality, p) :=
    if contains (lit "--sd") p
    then (lit "standard", replace (lit "--sd") [] p) else (quality, p) in
  let '(quality, p) :=
    if contains (lit "--hd") p
    then (lit "hd", replace (lit "--hd") [] p) else (quality, p) in
  let '(size, p) :=
    if contains (lit "--horizontal") p
    then (if decide (ImageGenModel (config e) = lit "dall-e-3")
          then lit "1792x1024" else size,
          replace (lit "--horizontal") [] p)
    else (size, p) in
  let '(size, p) :=
    if contains (lit "--vertical") p
    then (if decide (ImageGenModel (config e) = lit "dall-e-3")
          then lit "1024x1792" else size,
          replace (lit "--vertical") [] p)
    else (size, p) in
  (p, style, quality, size).

(** The prompt once its em dashes are hyphens (line 122). *)
Definition normalised (p : pystr) : pystr := replace emdash (lit "--") p.

(** The text left of a normalised prompt when the six tokens have been
    deleted from it, each by [replace], in the order of the source. *)
Definition without_tokens (p0 : pystr) : pystr :=
  replace (lit "--vertical") []
    (replace (lit "--horizontal") []
       (replace (lit "--hd") []
          (replace (lit "--sd") []
             (replace (lit "--vivid") []
                (replace (lit "--natural") [] p0))))).

(** The [try] block up to the call of the provider: the request that is
    sent, an early [return], or an exception. *)
Definition imagine_request (e : t) (a : args) : outcome result request :=
  p <- match a_prompt a with
       | Some p => Val p
       | None => Raise AttributeError
       end ;;
  let '(p, style, quality, size) :=
    directives e p (a_style a) (a_quality a) (a_size a) in
  let p := strip p in
  if decide (p = []) then Return (None, Some empty_prompt_message)
  else
    user_id <- (if end_user_id e
                then match encode_utf8 (str_of_identity (a_id a)) with
                     | Some bytes => Val (Some (Sha1.hexdigest bytes))
                     | None => Raise UnicodeEncodeError
                     end
                else Val None) ;;
    Val {| model := ImageGenModel (config e);
           prompt := p;
           size := size;
           quality := quality;
           n := a_n a;
           response_format := lit "b64_json";
           style := style;
           user := str_of_option user_id |}.

(** The rest of the [try] block: the call and the reading of the answer. *)
Definition read_response (revision : bool) (r : response)
  : outcome result result :=
  first <- index (data r) 0 ;;
  let b64_image :=
    match b64_json first with
    | Some (c :: s) => Some (c :: s)
    | _ => None
    end in
  let revised :=
    if revision
    then match revised_prompt first with
         | Some v => v
         | None => None
         end
    else None in
  Return (b64_image, revised).

Definition imagine_body (e : t) (prov : provider) (a : args)
  : outcome result result :=
  req <- imagine_request e a ;;
  match prov req with
  | inl err => Raise err
  | inr r => read_response (a_revision a) r
  end.

(** The [except] clauses of [imagine]. *)
Definition handle (o : outcome result result) : result :=
  match o with
  | Val r | Return r => r
  | Raise (BadRequestError text) =>
      if contains (lit "content_policy_violation") text
      then (None, Some policy_message)
      else (None, Some rejected_message)
  | Raise (RateLimitError _) => (None, Some provider_rate_limit_message)
  | Raise _ => (None, None)
  end.

Definition imagine (e : t) (now : Q) (prov : provider) (a : args)
  : t * result :=
  let '(e1, ok) := image_rate_limit_check e now (a_id a) in
  if negb ok
  then (e1, (None, Some (rate_limited_message
                           (ImageRateLimitCount (config e))
                           (ImageRateLimitTime (config e)))))
  else (e1, handle (imagine_body e1 prov a)).

(** The arguments [generate_image] passes on. *)
Definition generate_args (p : pystr) (orientation image_style : option pystr)
  : args :=
  let size := lit "1024x1024" in
  let style := lit "vivid" in
  let size :=
    match orientation with
    | Some o =>
        let size := if decide (o = lit "landscape") then lit "1792x1024"
                    else size in
        if decide (o = lit "portrait") then lit "1024x1792" else size
    | None => size
    end in
  let style :=
    match image_style with
    | Some s => if decide (s = lit "natural") then lit "natural" else style
    | None => style
    end in
  {| a_prompt := Some p; a_id := IdStr (lit "function"); a_size := size;
     a_style := style; a_n := 1; a_quality := lit "standard";
     a_revision := true |}.

(** [generate_image] over the method it delegates to: [self.imagine] is
    looked up on the object, so the body is stated for any callee, which
    may raise; the engine's own method is [imagine]. *)
Section GenerateImage.

Variable callee : t -> args -> t * (exn + result).

Definition generate_image_body (e : t) (p : option pystr)
    (orientation image_style : option pystr)
  : t * outcome (option result) (option result) :=
  match p with
  | None => (e, Return (Some (None, None)))
  | Some p =>
      match callee e (generate_args p orientation image_style) with
      | (e1, inl err) => (e1, Raise err)
      | (e1, inr (b64_image, revised)) =>
          (e1, Return (Some (b64_image, revised)))
      end
  end.

(** [None] is the bare [None] of the [except] clause, [Some r] a tuple. *)
Definition generate_image_with (e : t) (p : option pystr)
    (orientation image_style : option pystr) : t * option result :=
  match generate_image_body e p orientation image_style with
  | (e1, Val r) | (e1, Return r) => (e1, r)
  | (e1, Raise _) => (e1, None)
  end.

End GenerateImage.

(** [self.imagine] on the engine's own class: it returns its tuple. *)
Definition own_imagine (now : Q) (prov : provider) (e : t) (a : args)
  : t * (exn + result) :=
  let '(e1, r) := imagine e now prov a in (e1, inr r).

Definition generate_image (e : t) (now : Q) (prov : provider)
    (p : option pystr) (orientation image_style : option pystr)
  : t * option result :=
  generate_image_with (own_imagine now prov) e p orientation image_style.

End DalleEngine.

(** ** The Stability engine *)

Module StabilityEngine.

Local Open Scope outcome_scope.

(** [self.settings].  [NegativePrompt] is [None] when the configuration
    says ["None"]; the other two are read with [is not None] guards. *)
Record settings : Type := {
  ImageGenURL : pystr;
  ImageGenerationSize : option pystr;
  ImageRateLimitCount : Z;
  ImageRateLimitTime : Z;
  NegativePrompt : option pystr;
  Seed : option Z
}.

Record t : Type := {
  config : settings;
  image_rate_limit : option table
}.

Definition init (s : settings) : t :=
  {| config := s;
     image_rate_limit :=
       if (ImageRateLimitCount s >? 0) && (ImageRateLimitTime s >? 0)
       then Some ∅ else None |}.

(** The [data] dict of the request: an absent key is [None]. *)
Record data : Type := {
  negative_prompt : option pystr;
  aspect_ratio : option pystr;
  seed : option Z;
  prompt : option pystr;
  output_format : option pystr
}.

Definition empty_data : data :=
  {| negative_prompt := None; aspect_ratio := None; seed := None;
     prompt := None; output_format := None |}.

Definition set_negative_prompt (v : pystr) (d : data) : data :=
  {| negative_prompt := Some v; aspect_ratio := aspect_ratio d;
     seed := seed d; prompt := prompt d; output_format := output_format d |}.
Definition set_aspect_ratio (v : pystr) (d : data) : data :=
  {| negative_prompt := negative_prompt d; aspect_ratio := Some v;
     seed := seed d; prompt := prompt d; output_format := output_format d |}.
Definition set_seed (v : Z) (d : data) : data :=
  {| negative_prompt := negative_prompt d; aspect_ratio := aspect_ratio d;
     seed := Some v; prompt := prompt d; output_format := output_format d |}.
Definition set_prompt (v : pystr) (d : data) : data :=
  {| negative_prompt := negative_prompt d; aspect_ratio := aspect_ratio d;
     seed := seed d; prompt := Some v; output_format := output_format d |}.
Definition set_output_format (v : pystr) (d : data) : data :=
  {| negative_prompt := negative_prompt d; aspect_ratio := aspect_ratio d;
     seed := seed d; prompt := prompt d; output_format := Some v |}.

(** The body of a 200 answer as [response.json()] gives it; the values
    are kept in the text form the f-strings print. *)
Record json : Type := {
  j_image : option pystr;
  j_seed : option pystr;
  j_finish_reason : option pystr
}.

(** [json_body] is [None] when [response.json()] raises. *)
Record response : Type := {
  status_code : Z;
  json_body : option json
}.

(** [requests.post(url, headers=..., files=..., data=data)] *)
Definition provider : Type := pystr -> data -> exn + response.

Record args : Type := {
  a_prompt : option pystr;
  a_id : identity;
  a_ratio : pystr;
  a_negative_prompt : option pystr;
  a_seed : Z;
  a_output_format : pystr;
  a_revision : bool
}.

Definition default_args (p : option pystr) : args :=
  {| a_prompt := p; a_id := IdInt 0; a_ratio := lit "1:1";
     a_negative_prompt := None; a_seed := 0; a_output_format := lit "jpeg";
     a_revision := false |}.

Definition no_prompt_message : pystr :=
  lit "No text prompt was given. Please try again.".
Definition empty_prompt_message : pystr :=
  lit "Text prompt is empty. Please try again.".
Definition bad_request_message : pystr :=
  lit "Your request was rejected (BadRequest).".
Definition moderation_message : pystr :=
  lit "Your request was flagged by content moderation. Please review it and try again.".
Definition server_error_message : pystr :=
  lit "Service is down. Please try again later.".
Definition failure_message : pystr :=
  lit "Could not generate image. Please try again.".

Definition image_rate_limit_check (e : t) (now : Q) (id : identity)
  : t * bool :=
  let '(attr, ok) :=
    RateLimit.image_rate_limit_check
      (ImageRateLimitCount (config e)) (ImageRateLimitTime (config e))
      (image_rate_limit e) now id in
  ({| config := config e; image_rate_limit := attr |}, ok).

(** Lines 322 to 338: the defaults of the configuration, then the
    arguments of the call. *)
Definition seed_data (e : t) (a : args) : data :=
  let d := empty_data in
  let d := match NegativePrompt (config e) with
           | Some v => set_negative_prompt v d
           | None => d
           end in
  let d := match ImageGenerationSize (config e) with
           | Some v => set_aspect_ratio v d
           | None => d
           end in
  let d := match Seed (config e) with
           | Some v => set_seed v d
           | None => d
           end in
  let d := match a_negative_prompt a with
           | Some np =>
               match negative_prompt d with
               | Some old => set_negative_prompt (old ++ lit "; " ++ np) d
               | None => set_negative_prompt np d
               end
           | None => d
           end in
  let d := if a_seed a >? 0 then set_seed (a_seed a) d else d in
  if decide (a_ratio a = lit "1:1") then d else set_aspect_ratio (a_ratio a) d.

(** The word after a token: [prompt.split(tok)[1].strip()], then
    [.split()[0].strip()]. *)
Definition argument_of {R : Type} (tok p : pystr) : outcome R pystr :=
  rest <- index (split tok p) 1 ;;
  let rest := strip rest in
  word <- index (words rest) 0 ;;
  Val (strip word).

(** Lines 341 to 361: the directive tokens.  The result carries the
    local [ratio] next to the working prompt and the dict. *)
Definition directives (p : pystr) (ratio : pystr) (d : data)
  : outcome result (pystr * pystr * data) :=
  let '(ratio, p) :=
    if contains (lit "--horizontal") p
    then (lit "16:9", replace (lit "--horizontal") [] p) else (ratio, p) in
  let '(ratio, p) :=
    if contains (lit "--vertical") p
    then (lit "9:16", replace (lit "--vertical") [] p) else (ratio, p) in
  x <- (if contains (lit "--ratio") p
        then
          ratio <- argument_of (lit "--ratio") p ;;
          let p := replace (lit "--ratio " ++ ratio) [] p in
          Val (ratio, p, set_aspect_ratio ratio d)
        else Val (ratio, p, d)) ;;
  let '(ratio, p, d) := x in
  x <- (if contains (lit "--negative") p
        then
          np <- argument_of (lit "--negative") p ;;
          let p := replace (lit "--negative " ++ np) [] p in
          old <- match negative_prompt d with
                 | Some old => Val old
                 | None => Raise KeyError
                 end ;;
          let added := match negative_prompt d with
                       | Some _ => lit "; " ++ np
                       | None => np
                       end in
          Val (p, set_negative_prompt (old ++ added) d)
        else Val (p, d)) ;;
  let '(p, d) := x in
  x <- (if contains (lit "--seed") p
        then
          s <- argument_of (lit "--seed") p ;;
          let p := replace (lit "--seed " ++ s) [] p in
          v <- match int_of_str s with
               | Some v => Val v
               | None => Raise ValueError
               end ;;
          Val (p, set_seed v d)
        else Val (p, d)) ;;
  let '(p, d) := x in
  Val (ratio, p, d).

(** The prompt once its em dashes are hyphens and its double spaces
    single (lines 320 and 321). *)
Definition normalised (p : pystr) : pystr :=
  replace (lit "  ") (lit " ") (replace emdash (lit "--") p).

(** The text left of a normalised prompt when [--horizontal] and
    [--vertical] have been deleted: the working prompt [--ratio] is
    looked up in. *)
Definition without_orientation (p0 : pystr) : pystr :=
  replace (lit "--vertical") [] (replace (lit "--horizontal") [] p0).

(** The text left when [tok] and the word after it have been deleted, as
    lines 348 to 350 do for [--ratio]: nothing changes when the token
    does not occur. *)
Definition without_argument (tok p : pystr) : pystr :=
  if contains tok p
  then match argument_of (R := result) tok p with
       | Val w => replace (tok ++ lit " " ++ w) [] p
       | _ => p
       end
  else p.

(** The [try] block up to [requests.post]. *)
Definition imagine_request (e : t) (a : args) : outcome result data :=
  match a_prompt a with
  | None => Return (None, Some no_prompt_message)
  | Some p =>
      if decide (p = []) then Return (None, Some empty_prompt_message)
      else
        let p := replace emdash (lit "--") p in
        let p := replace (lit "  ") (lit " ") p in
        let d := seed_data e a in
        x <- directives p (a_ratio a) d ;;
        let '(_, p, d) := x in
        let d := set_prompt p d in
        Val (set_output_format (a_output_format a) d)
  end.

(** Lines 375 to 397: the reading of the answer. *)
Definition read_response (revision : bool) (sent : pystr) (r : response)
  : outcome result result :=
  if status_code r =? 200 then
    match json_body r with
    | None => Raise JSONDecodeError
    | Some body =>
        match j_image body with
        | Some img =>
            revised <- (if revision
                        then match j_seed body, j_finish_reason body with
                             | Some s, Some f =>
                                 Val (Some (lit "Prompt: " ++ sent ++
                                            lit ". Seed: " ++ s ++
                                            lit ". Finish Reason: " ++ f))
                             | _, _ => Raise KeyError
                             end
                        else Val None) ;;
            Return (Some img, revised)
        | None =>
            match j_finish_reason body with
            | Some f =>
                Return (None, Some (lit "Could not generate image. Finish Reason: " ++ f))
            | None => Return (None, Some failure_message)
            end
        end
    end
  else if status_code r =? 400 then Return (None, Some bad_request_message)
  else if status_code r =? 403 then Return (None, Some moderation_message)
  else if status_code r =? 500 then Return (None, Some server_error_message)
  else Return (None, Some failure_message).

Definition imagine_body (e : t) (prov : provider) (a : args)
  : outcome result result :=
  d <- imagine_request e a ;;
  match prov (ImageGenURL (config e)) d with
  | inl err => Raise err
  | inr r => read_response (a_revision a) (default [] (prompt d)) r
  end.

(** The single [except Exception] clause. *)
Definition handle (o : outcome result result) : result :=
  match o with
  | Val r | Return r => r
  | Raise _ => (None, None)
  end.

Definition imagine (e : t) (now : Q) (prov : provider) (a : args)
  : t * result :=
  let '(e1, ok) := image_rate_limit_check e now (a_id a) in
  if negb ok
  then (e1, (None, Some (rate_limited_message
                           (ImageRateLimitCount (config e))
                           (ImageRateLimitTime (config e)))))
  else (e1, handle (imagine_body e1 prov a)).

Definition generate_args (p : pystr) (orientation : option pystr) : args :=
  let ratio := lit "1:1" in
  let ratio :=
    match orientation with
    | Some o =>
        let ratio := if decide (o = lit "landscape") then lit "16:9"
                     else ratio in
        if decide (o = lit "portrait") then lit "9:16" else ratio
    | None => ratio
    end in
  {| a_prompt := Some p; a_id := IdStr (lit "function"); a_ratio := ratio;
     a_negative_prompt := None; a_seed := 0; a_output_format := lit "jpeg";
     a_revision := false |}.

Section GenerateImage.

Variable callee : t -> args -> t * (exn + result).

Definition generate_image_body (e : t) (p : option pystr)
    (orientation image_style : option pystr)
  : t * outcome (option result) (option result) :=
  match p with
  | None => (e, Return (Some (None, None)))
  | Some p =>
      match callee e (generate_args p orientation) with
      | (e1, inl err) => (e1, Raise err)
      | (e1, inr (b64_image, revised)) =>
          (e1, Return (Some (b64_image, revised)))
      end
  end.

Definition generate_image_with (e : t) (p : option pystr)
    (orientation image_style : option pystr) : t * option result :=
  match generate_image_body e p orientation image_style with
  | (e1, Val r) | (e1, Return r) => (e1, r)
  | (e1, Raise _) => (e1, None)
  end.

End GenerateImage.

Definition own_imagine (now : Q) (prov : provider) (e : t) (a : args)
  : t * (exn + result) :=
  let '(e1, r) := imagine e now prov a in (e1, inr r).

Definition generate_image (e : t) (now : Q) (prov : provider)
    (p : option pystr) (orientation image_style : option pystr)
  : t * option result :=
  generate_image_with (own_imagine now prov) e p orientation image_style.

End StabilityEngine.

(** ** The two engines behind one interface *)

Inductive engine : Type :=
| Dalle (e : DalleEngine.t)
| Stability (e : StabilityEngine.t).

Definition rate_limit_count (e : engine) : Z :=
  match e with
  | Dalle d => DalleEngine.ImageRateLimitCount (DalleEngine.config d)
  | Stability s => StabilityEngine.ImageRateLimitCount (StabilityEngine.config s)
  end.

Definition rate_limit_time (e : engine) : Z :=
  match e with
  | Dalle d => DalleEngine.ImageRateLimitTime (DalleEngine.config d)
  | Stability s => StabilityEngine.ImageRateLimitTime (StabilityEngine.config s)
  end.

(** [self.image_rate_limit], when the attribute exists. *)
Definition rate_table (e : engine) : option table :=
  match e with
  | Dalle d => DalleEngine.image_rate_limit d
  | Stability s => StabilityEngine.image_rate_limit s
  end.

Definition limiter_enabled (e : engine) : Prop :=
  0 < rate_limit_count e /\ 0 < rate_limit_time e.

Definition image_rate_limit_check (e : engine) (now : Q) (id : identity)
  : engine * bool :=
  match e with
  | Dalle d =>
      let '(d1, ok) := DalleEngine.image_rate_limit_check d now id in
      (Dalle d1, ok)
  | Stability s =>
      let '(s1, ok) := StabilityEngine.image_rate_limit_check s now id in
      (Stability s1, ok)
  end.

(** The timestamps the engine holds for an identity. *)
Definition timestamps (e : engine) (id : identity) : list Q :=
  match rate_table e with
  | Some m => RateLimit.history m id
  | None => []
  end.

(** A run of checks on one engine, each with the clock value it reads;
    the answers come in call order. *)
Fixpoint check_all (e : engine) (calls : list (Q * identity))
  : engine * list bool :=
  match calls with
  | [] => (e, [])
  | (now, id) :: rest =>
      let '(e1, ok) := image_rate_limit_check e now id in
      let '(e2, oks) := check_all e1 rest in
      (e2, ok :: oks)
  end.

(** The engine with its table replaced. *)
Definition set_rate_table (e : engine) (attr : option table) : engine :=
  match e with
  | Dalle d =>
      Dalle {| DalleEngine.config := DalleEngine.config d;
               DalleEngine.end_user_id := DalleEngine.end_user_id d;
               DalleEngine.image_rate_limit := attr |}
  | Stability s =>
      Stability {| StabilityEngine.config := StabilityEngine.config s;
                   StabilityEngine.image_rate_limit := attr |}
  end.

(** The clock values of the calls an identity made in a run. *)
Definition calls_of (id : identity) (calls : list (Q * identity)) : list Q :=
  List.map fst (List.filter (fun c => bool_decide (snd c = id)) calls).

(** ** Sample configurations *)

Module Sample.

(** A DALL-E engine that allows two images per minute. *)
Definition dalle_settings : DalleEngine.settings :=
  {| DalleEngine.ImageGenModel := lit "dall-e-3";
     DalleEngine.ImageGenerationSize := lit "1024x1024";
     DalleEngine.ImageGenerationStyle := lit "vivid";
     DalleEngine.ImageGenerationQuality := lit "standard";
     DalleEngine.ImageRateLimitCount := 2;
     DalleEngine.ImageRateLimitTime := 60 |}.

Definition dalle_limited : DalleEngine.t := DalleEngine.init dalle_settings false.

(** A Stability engine with the defaults of its configuration: no
    limiter, ratio 1:1, no negative prompt, seed 0. *)
Definition stability_settings : StabilityEngine.settings :=
  {| StabilityEngine.ImageGenURL :=
       lit "https://api.stability.ai/v2beta/stable-image/generate/core";
     StabilityEngine.ImageGenerationSize := Some (lit "1:1");
     StabilityEngine.ImageRateLimitCount := 0;
     StabilityEngine.ImageRateLimitTime := 0;
     StabilityEngine.NegativePrompt := None;
     StabilityEngine.Seed := Some 0 |}.

Definition stability_open : StabilityEngine.t :=
  StabilityEngine.init stability_settings.

(** DALL-E engines without a limiter, one per model generation. *)
Definition dalle_open_settings (model : pystr) : DalleEngine.settings :=
  {| DalleEngine.ImageGenModel := model;
     DalleEngine.ImageGenerationSize := lit "1024x1024";
     DalleEngine.ImageGenerationStyle := lit "vivid";
     DalleEngine.ImageGenerationQuality := lit "standard";
     DalleEngine.ImageRateLimitCount := 0;
     DalleEngine.ImageRateLimitTime := 0 |}.

Definition dalle3 (flag : bool) : DalleEngine.t :=
  DalleEngine.init (dalle_open_settings (lit "dall-e-3")) flag.

Definition dalle2 (flag : bool) : DalleEngine.t :=
  DalleEngine.init (dalle_open_settings (lit "dall-e-2")) flag.

(** An OpenAI client whose call fails with the given status. *)
Definition openai_fails (status : Z) (text : pystr) : DalleEngine.provider :=
  fun _ => inl (openai_status_error status text).

(** An OpenAI client that answers with one image. *)
Definition openai_answers : DalleEngine.provider :=
  fun req =>
    inr {| DalleEngine.data :=
             [{| DalleEngine.b64_json := Some (lit "aGVsbG8=");
                 DalleEngine.revised_prompt :=
                   Some (Some (DalleEngine.prompt req)) |}] |}.

(** A Stability endpoint that answers every request with one status. *)
Definition stability_status (status : Z) : StabilityEngine.provider :=
  fun _ _ => inr {| StabilityEngine.status_code := status;
                    StabilityEngine.json_body := None |}.

(** A Stability endpoint that answers with one image. *)
Definition stability_answers : StabilityEngine.provider :=
  fun _ _ =>
    inr {| StabilityEngine.status_code := 200;
           StabilityEngine.json_body :=
             Some {| StabilityEngine.j_image := Some (lit "aGVsbG8=");
                     StabilityEngine.j_seed := Some (lit "7");
                     StabilityEngine.j_finish_reason := Some (lit "SUCCESS") |} |}.

(** The request [generate_image] leads to for the prompt ['a cat'] on a
    DALL-E 3 engine that derives end-user identifiers. *)
Definition function_request : DalleEngine.request :=
  {| DalleEngine.model := lit "dall-e-3";
     DalleEngine.prompt := lit "a cat";
     DalleEngine.size := lit "1024x1024";
     DalleEngine.quality := lit "standard";
     DalleEngine.n := 1;
     DalleEngine.response_format := lit "b64_json";
     DalleEngine.style := lit "vivid";
     DalleEngine.user := lit "c218e39efa2e1aae69f39d2054528369ce1e1f46" |}.

(** The request for the prompt ['a cat --horizontal --hd'] with the
    defaults of the signature, on a DALL-E 3 engine. *)
Definition wide_request : DalleEngine.request :=
  {| DalleEngine.model := lit "dall-e-3";
     DalleEngine.prompt := lit "a cat";
     DalleEngine.size := lit "1792x1024";
     DalleEngine.quality := lit "hd";
     DalleEngine.n := 1;
     DalleEngine.response_format := lit "b64_json";
     DalleEngine.style := lit "vivid";
     DalleEngine.user := lit "None" |}.

(** A call of the DALL-E [imagine] that asks for hd quality. *)
Definition dalle_hd_call (p : pystr) : DalleEngine.args :=
  {| DalleEngine.a_prompt := Some p; DalleEngine.a_id := IdInt 0;
     DalleEngine.a_size := lit "1024x1024"; DalleEngine.a_style := lit "vivid";
     DalleEngine.a_n := 1; DalleEngine.a_quality := lit "hd";
     DalleEngine.a_revision := false |}.

(** A call of the Stability [imagine] that asks for the ratio 21:9 and
    the seed 7. *)
Definition stability_wide_call (p : pystr) : StabilityEngine.args :=
  {| StabilityEngine.a_prompt := Some p; StabilityEngine.a_id := IdInt 0;
     StabilityEngine.a_ratio := lit "21:9";
     StabilityEngine.a_negative_prompt := None;
     StabilityEngine.a_seed := 7;
     StabilityEngine.a_output_format := lit "jpeg";
     StabilityEngine.a_revision := false |}.

End Sample.

(** * Properties *)

(** ** Python string operations on the literals of the source *)

Example replace_double_space :
  replace (lit "  ") (lit " ") (lit "a   b") = lit "a  b".
Proof. reflexivity. Qed.

Example replace_empty_old : replace [] (lit "x") (lit "abc") = lit "xaxbxcx".
Proof. reflexivity. Qed.

Example split_ratio :
  split (lit "--ratio") (lit "a--ratiob--ratioc") = [lit "a"; lit "b"; lit "c"].
Proof. reflexivity. Qed.

Example words_example : words (lit "  16:9  rest ") = [lit "16:9"; lit "rest"].
Proof. reflexivity. Qed.

Example str_of_int_examples :
  str_of_int 0 = lit "0" /\ str_of_int 1205 = lit "1205" /\
  str_of_int (-37) = lit "-37".
Proof. repeat split; reflexivity. Qed.

Example round_div_examples :
  round_div 30 60 = 0 /\ round_div 90 60 = 2 /\ round_div 150 60 = 2 /\
  round_div 100 60 = 2 /\ round_div 60 60 = 1.
Proof. repeat split; reflexivity. Qed.

Example int_of_str_examples :
  int_of_str (lit "42") = Some 42 /\ int_of_str (lit "-7") = Some (-7) /\
  int_of_str (lit "1_000") = Some 1000 /\ int_of_str (lit "4x") = None /\
  int_of_str [] = None.
Proof. repeat split; reflexivity. Qed.


(** ** [in] and [replace] *)

Section StringFacts.

Lemma startswith_spec (pre s : pystr) :
  startswith pre s = true <-> exists r, s = pre ++ r.
Proof.
  revert s. induction pre as [|a pre IH]; intros s; simpl.
  - split; eauto.
  - destruct s as [|b s].
    + split; [discriminate | intros [r Hr]; discriminate].
    + destruct (N.eqb_spec a b) as [->|Hne].
      * rewrite IH. split; intros [r Hr]; exists r.
        -- now rewrite Hr.
        -- now injection Hr.
      * split; [discriminate|]. intros [r Hr]. injection Hr as Hab _.
        congruence.
Qed.

Lemma startswith_app (pre r : pystr) : startswith pre (pre ++ r) = true.
Proof. apply startswith_spec. eauto. Qed.

Lemma contains_spec (sub s : pystr) :
  contains sub s = true <-> exists u v, s = u ++ sub ++ v.
Proof.
  induction s as [|c s IH]; simpl.
  - rewrite orb_false_r, startswith_spec. split.
    + intros [r Hr]. exists [], r. exact Hr.
    + intros (u & v & H). destruct u; [eauto|discriminate].
  - rewrite orb_true_iff, IH, startswith_spec. split.
    + intros [[r Hr]|(u & v & H)].
      * exists [], r. exact Hr.
      * exists (c :: u), v. now rewrite H.
    + intros (u & v & H). destruct u as [|c' u].
      * left. eauto.
      * right. injection H as _ H. eauto.
Qed.

(** Two strings that start a common string start one another. *)
Lemma startswith_comparable (a b v : pystr) :
  startswith a (b ++ v) = true -> comparable a b = true.
Proof.
  rewrite startswith_spec. intros [r Hr]. unfold comparable.
  apply orb_true_iff. symmetry in Hr.
  apply List.app_eq_app in Hr as [l [[-> _]|[-> _]]].
  - right. apply startswith_app.
  - left. apply startswith_app.
Qed.

Lemma tails_suffix (t1 t2 : pystr) : t2 <> [] -> In t2 (tails (t1 ++ t2)).
Proof.
  intros Hne. induction t1 as [|c t1 IH]; simpl.
  - destruct t2; [contradiction|]. now left.
  - now right.
Qed.

Lemma replace_from_skip (old new : pystr) (k : nat) (s : pystr) :
  replace_from old new k s = replace_from old new 0 (skipn k s).
Proof.
  revert k. induction s as [|c s IH]; intros k.
  - now destruct k.
  - destruct k as [|k]; [reflexivity|]. simpl. apply IH.
Qed.

(** [replace] written on the remaining text alone. *)
Lemma replace_from_unfold (old new s : pystr) :
  old <> [] ->
  replace_from old new 0 s
  = if startswith old s
    then new ++ replace_from old new 0 (skipn (length old) s)
    else match s with
         | [] => []
         | c :: s' => c :: replace_from old new 0 s'
         end.
Proof.
  intros Hne. destruct s as [|c s].
  - destruct old; [contradiction|reflexivity].
  - simpl replace_from at 1. destruct (startswith old (c :: s)); [|reflexivity].
    rewrite replace_from_skip. destruct old; [contradiction|reflexivity].
Qed.

(** Without an occurrence, [replace] returns the string as it is. *)
Lemma replace_from_absent (old new s : pystr) :
  old <> [] -> contains old s = false -> replace_from old new 0 s = s.
Proof.
  intros Hne. induction s as [|c s IH]; intros H.
  - reflexivity.
  - simpl in H. apply orb_false_iff in H as [H1 H2].
    rewrite replace_from_unfold, H1 by assumption. now rewrite IH.
Qed.

Lemma replace_absent (old new s : pystr) :
  old <> [] -> contains old s = false -> replace old new s = s.
Proof.
  intros Hne H. destruct old; [contradiction|].
  now apply replace_from_absent.
Qed.

(** Where [old] and [t] are apart, no occurrence of [old] starts inside
    an occurrence of [t], and none that starts before it reaches it. *)
Lemma apart_inside (old t t1 t2 v : pystr) :
  apart old t = true -> t = t1 ++ t2 -> t2 <> [] ->
  startswith old (t2 ++ v) = false.
Proof.
  intros Ha -> Hne. apply andb_true_iff in Ha as [Ha _].
  rewrite List.forallb_forall in Ha. specialize (Ha t2 (tails_suffix t1 t2 Hne)).
  destruct (startswith old (t2 ++ v)) eqn:E; [|reflexivity].
  apply startswith_comparable in E. rewrite E in Ha. discriminate.
Qed.

Lemma apart_before (old t u w : pystr) :
  apart old t = true -> u <> [] ->
  startswith old (u ++ t ++ w) = true -> exists u2, u = old ++ u2.
Proof.
  intros Ha Hne H. apply andb_true_iff in Ha as [_ Ha].
  rewrite List.forallb_forall in Ha.
  apply startswith_spec in H as [r Hr]. symmetry in Hr.
  apply List.app_eq_app in Hr as [l [[-> Hl]|[-> Hl]]].
  - destruct l as [|c l]; [exists []; now rewrite !List.app_nil_r|].
    exfalso. destruct u as [|c0 u]; [contradiction|]. simpl in Ha.
    assert (Hin : In (c :: l) (tails (u ++ c :: l)))
      by (apply tails_suffix; discriminate).
    specialize (Ha (c :: l) Hin).
    assert (E : comparable t (c :: l) = true).
    { apply (startswith_comparable _ _ r). rewrite <- Hl. apply startswith_app. }
    unfold comparable in Ha, E. rewrite orb_comm in E. rewrite E in Ha.
    discriminate.
  - eauto.
Qed.

Lemma replace_from_through (old new t t1 t2 v : pystr) :
  old <> [] -> apart old t = true -> t = t1 ++ t2 ->
  replace_from old new 0 (t2 ++ v) = t2 ++ replace_from old new 0 v.
Proof.
  intros Hne Ha. revert t1. induction t2 as [|c t2 IH]; intros t1 Ht.
  - reflexivity.
  - rewrite replace_from_unfold by assumption.
    rewrite (apart_inside old t t1 (c :: t2) v Ha Ht) by discriminate.
    simpl. f_equal. apply (IH (t1 ++ [c])).
    now rewrite <- List.app_assoc.
Qed.

(** An occurrence of [t] survives the replacement of a string apart from it. *)
Lemma replace_from_keeps (old new t : pystr) :
  old <> [] -> apart old t = true ->
  forall (n : nat) (u v : pystr), (length u <= n)%nat ->
    exists u' v', replace_from old new 0 (u ++ t ++ v) = u' ++ t ++ v'.
Proof.
  intros Hne Ha. induction n as [|n IH]; intros u v Hlen.
  - destruct u; [|simpl in Hlen; lia].
    exists [], (replace_from old new 0 v). simpl.
    now apply (replace_from_through old new t []).
  - destruct u as [|c u].
    + exists [], (replace_from old new 0 v). simpl.
      now apply (replace_from_through old new t []).
    + rewrite replace_from_unfold by assumption.
      destruct (startswith old ((c :: u) ++ t ++ v)) eqn:E.
      * apply apart_before in E as [u2 Hu2]; [|assumption|discriminate].
        rewrite Hu2, <- List.app_assoc, List.skipn_app, List.skipn_all.
        rewrite Nat.sub_diag, List.skipn_O. cbn [app].
        destruct (IH u2 v) as (u' & v' & H).
        { apply (f_equal (@length N)) in Hu2. rewrite List.length_app in Hu2.
          simpl in Hu2, Hlen. destruct old; [contradiction|]. simpl in Hu2. lia. }
        exists (new ++ u'), v'. simpl. rewrite H. now rewrite <- List.app_assoc.
      * destruct (IH u v) as (u' & v' & H); [simpl in Hlen; lia|].
        exists (c :: u'), v'. simpl. now rewrite H.
Qed.

Lemma replace_keeps (old new t s : pystr) :
  old <> [] -> apart old t = true ->
  contains t s = true -> contains t (replace old new s) = true.
Proof.
  intros Hne Ha H. apply contains_spec in H as (u & v & ->).
  destruct old as [|c old]; [contradiction|]. unfold replace.
  destruct (replace_from_keeps (c :: old) new t Hne Ha (length u) u v (le_n _))
    as (u' & v' & ->).
  apply contains_spec. eauto.
Qed.

(** Every token starts with a hyphen: in a text without hyphens no token
    occurs, and a token between two such texts is cut out exactly. *)
Lemma startswith_other_head (c : N) (r s : pystr) (b : N) :
  b <> c -> startswith (c :: r) (b :: s) = false.
Proof.
  intros Hne. simpl. destruct (N.eqb_spec c b); [congruence|reflexivity].
Qed.

Lemma contains_hyphen_free (r s : pystr) :
  ~ In 45%N s -> contains (45%N :: r) s = false.
Proof.
  induction s as [|b s IH]; intros Hs; [reflexivity|].
  cbn [contains]. rewrite startswith_other_head, IH; [reflexivity| |].
  - intros H. apply Hs. now right.
  - intros ->. apply Hs. now left.
Qed.

Lemma replace_from_hyphen_free (r new u rest : pystr) :
  ~ In 45%N u ->
  replace_from (45%N :: r) new 0 (u ++ rest)
  = u ++ replace_from (45%N :: r) new 0 rest.
Proof.
  induction u as [|b u IH]; intros Hu; [reflexivity|].
  rewrite replace_from_unfold by discriminate.
  cbn [app]. rewrite startswith_other_head.
  - f_equal. apply IH. intros H. apply Hu. now right.
  - intros ->. apply Hu. now left.
Qed.

Lemma replace_single (r new u v : pystr) :
  ~ In 45%N u -> ~ In 45%N v ->
  replace (45%N :: r) new (u ++ (45%N :: r) ++ v) = u ++ new ++ v.
Proof.
  intros Hu Hv. unfold replace.
  rewrite replace_from_hyphen_free by assumption.
  rewrite replace_from_unfold by discriminate.
  rewrite startswith_app, List.skipn_app, List.skipn_all, Nat.sub_diag.
  rewrite List.skipn_O. cbn [app].
  rewrite replace_from_absent; [reflexivity|discriminate|].
  now apply contains_hyphen_free.
Qed.

Lemma contains_through_token (r tok t1 t2 v : pystr) :
  forallb (fun x => negb (comparable (45%N :: r) x)) (tails tok) = true ->
  ~ In 45%N v -> tok = t1 ++ t2 ->
  contains (45%N :: r) (t2 ++ v) = false.
Proof.
  intros Hc Hv. revert t1. induction t2 as [|c t2 IH]; intros t1 Ht.
  - now apply contains_hyphen_free.
  - cbn [app contains]. rewrite (IH (t1 ++ [c])).
    + rewrite orb_false_r.
      destruct (startswith (45%N :: r) (c :: t2 ++ v)) eqn:E; [|reflexivity].
      apply (startswith_comparable _ (c :: t2) v) in E.
      rewrite List.forallb_forall in Hc.
      specialize (Hc (c :: t2)). rewrite E in Hc.
      rewrite Ht in Hc. discriminate Hc. apply tails_suffix. discriminate.
    + now rewrite <- List.app_assoc.
Qed.

Lemma contains_other_token (r tok u v : pystr) :
  forallb (fun x => negb (comparable (45%N :: r) x)) (tails tok) = true ->
  ~ In 45%N u -> ~ In 45%N v ->
  contains (45%N :: r) (u ++ tok ++ v) = false.
Proof.
  intros Hc Hu Hv. induction u as [|b u IH].
  - cbn [app]. now apply (contains_through_token r tok [] tok v).
  - cbn [app contains]. rewrite startswith_other_head, IH; [reflexivity| |].
    + intros H. apply Hu. now right.
    + intros ->. apply Hu. now left.
Qed.

Lemma hyphen_free_app (u v : pystr) :
  ~ In 45%N u -> ~ In 45%N v -> ~ In 45%N (u ++ v).
Proof. intros Hu Hv H. apply List.in_app_iff in H. tauto. Qed.

Lemma token_cut (tok new u v : pystr) :
  List.hd 0%N tok = 45%N -> ~ In 45%N u -> ~ In 45%N v ->
  replace tok new (u ++ tok ++ v) = u ++ new ++ v.
Proof.
  destruct tok as [|c r]; [discriminate|]. simpl. intros ->.
  apply replace_single.
Qed.

Lemma token_absent (tok s : pystr) :
  List.hd 0%N tok = 45%N -> ~ In 45%N s -> contains tok s = false.
Proof.
  destruct tok as [|c r]; [discriminate|]. simpl. intros ->.
  apply contains_hyphen_free.
Qed.

Lemma token_other (tok' tok u v : pystr) :
  List.hd 0%N tok' = 45%N ->
  forallb (fun x => negb (comparable tok' x)) (tails tok) = true ->
  ~ In 45%N u -> ~ In 45%N v ->
  contains tok' (u ++ tok ++ v) = false.
Proof.
  destruct tok' as [|c r]; [discriminate|]. simpl List.hd. intros ->.
  apply contains_other_token.
Qed.

End StringFacts.

(** One deletion of the walk on a text [u ++ tok ++ v] without other
    hyphens: the token that is there goes, any other finds nothing. *)
Ltac delete_token tok u v :=
  first
    [ rewrite (token_cut tok [] u v) by first [reflexivity | assumption];
      cbn [app]
    | rewrite (replace_absent tok [] _)
        by first
             [ discriminate
             | apply token_other; first [reflexivity | assumption]
             | apply token_absent;
               [reflexivity | apply hyphen_free_app; assumption] ] ].


(** ** SHA-1 on the test vectors of [hashlib] *)

Definition sha1_of_text (s : string) : option pystr :=
  Sha1.hexdigest <$> encode_utf8 (lit s).

Example sha1_empty :
  sha1_of_text "" = Some (lit "da39a3ee5e6b4b0d3255bfef95601890afd80709").
Proof. vm_compute. reflexivity. Qed.

Example sha1_abc :
  sha1_of_text "abc" = Some (lit "a9993e364706816aba3e25717850c26c9cd0d89d").
Proof. vm_compute. reflexivity. Qed.

Example sha1_function :
  sha1_of_text "function"
  = Some (lit "c218e39efa2e1aae69f39d2054528369ce1e1f46").
Proof. vm_compute. reflexivity. Qed.

Example sha1_two_blocks :
  sha1_of_text
    "The quick brown fox jumps over the lazy dog, twice over, and then once more."
  = Some (lit "3422c8e415856bdc3814b33f9409428308abe6e3").
Proof. vm_compute. reflexivity. Qed.

Example sha1_beyond_ascii :
  Sha1.hexdigest <$> encode_utf8 [233; 8212; 119070]%N
  = Some (lit "0a9af439894c0cb05a90385c8680b335d7be61a3").
Proof. vm_compute. reflexivity. Qed.

(** ** The rate limiter *)

Section RateLimitFacts.

Import RateLimit.

Variables count window : Z.

Lemma fresh_spec (now t : Q) :
  fresh window now t = true <-> (now - t < inject_Z window)%Q.
Proof.
  unfold fresh. rewrite negb_true_iff.
  split.
  - intros H. apply Qnot_le_lt. intros Hle.
    apply Qle_bool_iff in Hle. congruence.
  - intros H. destruct (Qle_bool _ _) eqn:E; [|reflexivity].
    apply Qle_bool_iff in E. apply Qlt_not_le in H. contradiction.
Qed.

Lemma fresh_false (now t : Q) :
  fresh window now t = false <-> (inject_Z window <= now - t)%Q.
Proof.
  unfold fresh. rewrite negb_false_iff. apply Qle_bool_iff.
Qed.

Lemma inject_Z_pos : 0 < window -> (0 < inject_Z window)%Q.
Proof. intros H. unfold Qlt. simpl. lia. Qed.

Lemma fresh_now (now : Q) : 0 < window -> fresh window now now = true.
Proof.
  intros H. apply fresh_spec. pose proof (inject_Z_pos H). lra.
Qed.

Lemma pruned_app (now : Q) (h : list Q) :
  0 < window ->
  pruned window now h = List.filter (fresh window now) h ++ [now].
Proof.
  intros H. unfold pruned. rewrite List.filter_app. simpl.
  now rewrite fresh_now.
Qed.

Lemma pruned_fresh (now : Q) (h : list Q) (t : Q) :
  In t (pruned window now h) -> (now - t < inject_Z window)%Q.
Proof.
  unfold pruned. intros H. apply List.filter_In in H as [_ H].
  now apply fresh_spec.
Qed.

Lemma filter_all_fresh (now : Q) (h : list Q) :
  List.Forall (fun t => (now - t < inject_Z window)%Q) h ->
  List.filter (fresh window now) h = h.
Proof.
  induction 1 as [|t h Ht _ IH]; simpl; [reflexivity|].
  apply fresh_spec in Ht. now rewrite Ht, IH.
Qed.

Lemma filter_all_stale (now : Q) (h : list Q) :
  List.Forall (fun t => (inject_Z window <= now - t)%Q) h ->
  List.filter (fresh window now) h = [].
Proof.
  induction 1 as [|t h Ht _ IH]; simpl; [reflexivity|].
  apply fresh_false in Ht. now rewrite Ht.
Qed.

(** The three updates of the dict amount to one write under [id]. *)
Lemma updates_table (m : table) (now : Q) (id : identity) :
  prune window id now (append_now id now (ensure_key id m))
  = <[id := pruned window now (history m id)]> m.
Proof.
  unfold prune, append_now, ensure_key, pruned, history.
  destruct (m !! id) as [h|] eqn:E; simpl.
  - rewrite lookup_alter_eq, E. simpl.
    apply map_eq. intros j. destruct (decide (j = id)) as [->|Hne].
    + now rewrite !lookup_insert_eq.
    + rewrite !lookup_insert_ne by congruence.
      now rewrite lookup_alter_ne by congruence.
  - rewrite lookup_alter_eq, lookup_insert_eq. simpl.
    apply map_eq. intros j. destruct (decide (j = id)) as [->|Hne].
    + now rewrite !lookup_insert_eq.
    + rewrite !lookup_insert_ne by congruence.
      rewrite lookup_alter_ne by congruence.
      now rewrite lookup_insert_ne by congruence.
Qed.

Lemma check_disabled (attr : option table) (now : Q) (id : identity) :
  count <= 0 \/ window <= 0 ->
  image_rate_limit_check count window attr now id = (attr, true).
Proof.
  intros H. unfold image_rate_limit_check.
  replace ((count <=? 0) || (window <=? 0)) with true; [reflexivity|].
  symmetry. apply orb_true_iff. lia.
Qed.

Lemma check_enabled (m : table) (now : Q) (id : identity) :
  0 < count -> 0 < window ->
  image_rate_limit_check count window (Some m) now id
  = (Some (<[id := pruned window now (history m id)]> m),
     negb (Z.of_nat (length (pruned window now (history m id))) >? count)).
Proof.
  intros Hc Hw. unfold image_rate_limit_check.
  replace ((count <=? 0) || (window <=? 0)) with false
    by (symmetry; apply orb_false_iff; lia).
  rewrite updates_table, lookup_insert_eq. simpl.
  now destruct (_ >? _).
Qed.

(** Without the attribute the lookup raises and the check fails open. *)
Lemma check_fails_open (now : Q) (id : identity) :
  image_rate_limit_check count window None now id = (None, true).
Proof.
  unfold image_rate_limit_check. now destruct (_ || _).
Qed.

End RateLimitFacts.

Section EngineLimiter.

Lemma set_rate_table_same (e : engine) : set_rate_table e (rate_table e) = e.
Proof. destruct e as [[]|[]]; reflexivity. Qed.

Lemma rate_table_set (e : engine) (attr : option table) :
  rate_table (set_rate_table e attr) = attr.
Proof. destruct e; reflexivity. Qed.

Lemma rate_limit_count_set (e : engine) (attr : option table) :
  rate_limit_count (set_rate_table e attr) = rate_limit_count e.
Proof. destruct e; reflexivity. Qed.

Lemma rate_limit_time_set (e : engine) (attr : option table) :
  rate_limit_time (set_rate_table e attr) = rate_limit_time e.
Proof. destruct e; reflexivity. Qed.

(** Either engine runs the shared method body on its own fields. *)
Lemma check_core (e : engine) (now : Q) (id : identity) :
  image_rate_limit_check e now id
  = (set_rate_table e
       (fst (RateLimit.image_rate_limit_check
               (rate_limit_count e) (rate_limit_time e)
               (rate_table e) now id)),
     snd (RateLimit.image_rate_limit_check
            (rate_limit_count e) (rate_limit_time e)
            (rate_table e) now id)).
Proof.
  destruct e as [d|s]; simpl.
  - unfold DalleEngine.image_rate_limit_check.
    now destruct (RateLimit.image_rate_limit_check _ _ _ _ _).
  - unfold StabilityEngine.image_rate_limit_check.
    now destruct (RateLimit.image_rate_limit_check _ _ _ _ _).
Qed.

Lemma engine_check_disabled (e : engine) (now : Q) (id : identity) :
  rate_limit_count e <= 0 \/ rate_limit_time e <= 0 ->
  image_rate_limit_check e now id = (e, true).
Proof.
  intros H. rewrite check_core, check_disabled by assumption. simpl.
  now rewrite set_rate_table_same.
Qed.

Lemma engine_check_enabled (e : engine) (m : table) (now : Q) (id : identity) :
  limiter_enabled e -> rate_table e = Some m ->
  image_rate_limit_check e now id
  = (set_rate_table e
       (Some (<[id := RateLimit.pruned (rate_limit_time e) now (RateLimit.history m id)]> m)),
     negb (Z.of_nat (length (RateLimit.pruned (rate_limit_time e) now (RateLimit.history m id)))
           >? rate_limit_count e)).
Proof.
  intros [Hc Hw] Hm. rewrite check_core, Hm.
  now rewrite check_enabled by assumption.
Qed.

Lemma engine_check_all_disabled (e : engine) (calls : list (Q * identity)) :
  rate_limit_count e <= 0 \/ rate_limit_time e <= 0 ->
  check_all e calls = (e, List.map (fun _ => true) calls).
Proof.
  intros H. induction calls as [|[now id] rest IH]; simpl; [reflexivity|].
  now rewrite engine_check_disabled, IH by assumption.
Qed.

Lemma timestamps_after_check (e : engine) (m : table) (now : Q)
    (id id' : identity) :
  limiter_enabled e -> rate_table e = Some m ->
  timestamps (fst (image_rate_limit_check e now id)) id'
  = if decide (id' = id)
    then RateLimit.pruned (rate_limit_time e) now (timestamps e id)
    else timestamps e id'.
Proof.
  intros He Hm. rewrite (engine_check_enabled e m now id He Hm). simpl.
  unfold timestamps. rewrite rate_table_set, Hm. unfold RateLimit.history.
  destruct (decide (id' = id)) as [->|Hne].
  - now rewrite lookup_insert_eq.
  - now rewrite lookup_insert_ne by congruence.
Qed.

Lemma enabled_after_check (e : engine) (m : table) (now : Q) (id : identity) :
  limiter_enabled e -> rate_table e = Some m ->
  limiter_enabled (fst (image_rate_limit_check e now id)) /\
  rate_limit_time (fst (image_rate_limit_check e now id)) = rate_limit_time e /\
  rate_limit_count (fst (image_rate_limit_check e now id)) = rate_limit_count e /\
  exists m', rate_table (fst (image_rate_limit_check e now id)) = Some m'.
Proof.
  intros He Hm. rewrite (engine_check_enabled e m now id He Hm). simpl.
  unfold limiter_enabled.
  rewrite rate_limit_count_set, rate_limit_time_set, rate_table_set.
  repeat split; try apply He. eauto.
Qed.

(** Calls of an identity that all lie within the window of a later
    moment are all still in its RateLimit.history after the run. *)
Lemma recent_calls_kept (now : Q) (id : identity) :
  forall (calls : list (Q * identity)) (e : engine) (m : table)
         (old recent : list Q),
    limiter_enabled e -> rate_table e = Some m ->
    timestamps e id = old ++ recent ->
    List.Forall (fun t => (t <= now /\ now - t < inject_Z (rate_limit_time e))%Q)
                (recent ++ calls_of id calls) ->
    limiter_enabled (fst (check_all e calls)) /\
    rate_limit_time (fst (check_all e calls)) = rate_limit_time e /\
    rate_limit_count (fst (check_all e calls)) = rate_limit_count e /\
    (exists m', rate_table (fst (check_all e calls)) = Some m') /\
    exists old',
      timestamps (fst (check_all e calls)) id
      = old' ++ recent ++ calls_of id calls.
Proof.
  induction calls as [|[t i] rest IH]; intros e m old recent He Hm Hts Hall.
  - simpl. unfold calls_of. simpl. rewrite List.app_nil_r.
    repeat split; try apply He; eauto.
  - simpl.
    pose proof (enabled_after_check e m t i He Hm) as (He1 & Hw1 & Hc1 & m1 & Hm1).
    pose proof (timestamps_after_check e m t i id He Hm) as Hts1.
    destruct (image_rate_limit_check e t i) as [e1 ok] eqn:E1. simpl in *.
    destruct (decide (id = i)) as [<-|Hne].
    + assert (Hcalls : calls_of id ((t, id) :: rest) = t :: calls_of id rest).
      { unfold calls_of. simpl. now rewrite bool_decide_eq_true_2. }
      rewrite Hcalls in Hall |- *.
      apply List.Forall_app in Hall as [Hrec Hall].
      apply List.Forall_cons_iff in Hall as [[Ht1 Ht2] Hrest].
      assert (Hkeep : List.filter (RateLimit.fresh (rate_limit_time e) t) recent = recent).
      { apply filter_all_fresh. eapply List.Forall_impl; [|exact Hrec].
        simpl. intros a [Ha1 Ha2]. lra. }
      rewrite Hts, pruned_app, List.filter_app, Hkeep in Hts1 by apply He.
      rewrite <- List.app_assoc in Hts1.
      specialize (IH e1 m1 _ (recent ++ [t]) He1 Hm1 Hts1).
      rewrite Hw1 in IH. rewrite <- List.app_assoc in IH. simpl in IH.
      destruct (check_all e1 rest) as [e2 oks]. simpl in *.
      destruct IH as (H1 & H2 & H3 & H4 & old' & H5).
      { apply List.Forall_app. split; [exact Hrec|].
        constructor; [split; assumption | exact Hrest]. }
      repeat split; try apply H1; try congruence; eauto.
    + assert (Hcalls : calls_of id ((t, i) :: rest) = calls_of id rest).
      { unfold calls_of. simpl. rewrite bool_decide_eq_false_2; [easy|].
        simpl. congruence. }
      rewrite Hcalls in Hall |- *.
      rewrite Hts in Hts1.
      specialize (IH e1 m1 old recent He1 Hm1 Hts1).
      rewrite Hw1 in IH. specialize (IH Hall).
      destruct (check_all e1 rest) as [e2 oks]. simpl in *.
      destruct IH as (H1 & H2 & H3 & H4 & H5).
      repeat split; try apply H1; try congruence; eauto.
Qed.

End EngineLimiter.






(** C10.  With the limiter enabled, every check of [id] at time [now]
    leaves [now] as the last stamp of [id], whatever it answers, and the
    answer is taken on the list that already holds it.  A denied attempt
    therefore counts: with two images per 60 seconds and calls at 0 and
    10, the call at 65 is allowed, but after a denied attempt at 50 the
    call at 65 is denied as well. *)
Theorem denied_attempts_are_recorded (e : engine) (m : table) (now : Q)
    (id : identity) :
  limiter_enabled e -> rate_table e = Some m ->
  let e1 := fst (image_rate_limit_check e now id) in
  let ok := snd (image_rate_limit_check e now id) in
  List.last (timestamps e1 id) 0%Q = now
  /\ length (timestamps e1 id)
     = S (length (List.filter (RateLimit.fresh (rate_limit_time e) now)
                              (timestamps e id)))
  /\ ok = negb (Z.of_nat (length (timestamps e1 id)) >? rate_limit_count e)
  /\ snd (check_all (Dalle Sample.dalle_limited)
            [(0%Q, IdInt 7); (10%Q, IdInt 7); (65%Q, IdInt 7)])
     = [true; true; true]
  /\ snd (check_all (Dalle Sample.dalle_limited)
            [(0%Q, IdInt 7); (10%Q, IdInt 7); (50%Q, IdInt 7); (65%Q, IdInt 7)])
     = [true; true; false; false].
Proof.
  intros He Hm e1 ok. subst e1 ok.
  rewrite (timestamps_after_check e m now id id He Hm).
  rewrite decide_True by reflexivity.
  rewrite pruned_app by apply He.
  split; [|split; [|split; [|split]]].
  - apply List.last_last.
  - rewrite List.length_app. simpl. lia.
  - rewrite (engine_check_enabled e m now id He Hm). simpl.
    unfold timestamps. rewrite Hm. now rewrite pruned_app by apply He.
  - vm_compute. reflexivity.
  - vm_compute. reflexivity.
Qed.

Lemma denied_attempts_are_recorded_witness :
  let e := fst (check_all (Dalle Sample.dalle_limited)
                          [(0%Q, IdInt 7); (10%Q, IdInt 7)]) in
  snd (image_rate_limit_check e 50%Q (IdInt 7)) = false /\
  List.last (timestamps (fst (image_rate_limit_check e 50%Q (IdInt 7))) (IdInt 7)) 0%Q
  = 50%Q.
Proof.
  split.
  - vm_compute. reflexivity.
  - apply (denied_attempts_are_recorded
             (fst (check_all (Dalle Sample.dalle_limited)
                             [(0%Q, IdInt 7); (10%Q, IdInt 7)]))
             (<[IdInt 7 := [0%Q; 10%Q]]> ∅) 50%Q (IdInt 7)).
    + split; reflexivity.
    + vm_compute. reflexivity.
Defined.

(** ** [imagine]: the limiter in front of the [try] block *)

Section ImagineFacts.

Lemma dalle_request_after_check (e : DalleEngine.t) (now : Q) (id : identity)
    (a : DalleEngine.args) :
  DalleEngine.imagine_request
    (fst (DalleEngine.image_rate_limit_check e now id)) a
  = DalleEngine.imagine_request e a.
Proof.
  unfold DalleEngine.image_rate_limit_check.
  now destruct (RateLimit.image_rate_limit_check _ _ _ _ _).
Qed.

Lemma stability_request_after_check (e : StabilityEngine.t) (now : Q)
    (id : identity) (a : StabilityEngine.args) :
  StabilityEngine.imagine_request
    (fst (StabilityEngine.image_rate_limit_check e now id)) a
  = StabilityEngine.imagine_request e a.
Proof.
  unfold StabilityEngine.image_rate_limit_check.
  now destruct (RateLimit.image_rate_limit_check _ _ _ _ _).
Qed.

Lemma stability_url_after_check (e : StabilityEngine.t) (now : Q)
    (id : identity) :
  StabilityEngine.config (fst (StabilityEngine.image_rate_limit_check e now id))
  = StabilityEngine.config e.
Proof.
  unfold StabilityEngine.image_rate_limit_check.
  now destruct (RateLimit.image_rate_limit_check _ _ _ _ _).
Qed.

(** A call the limiter lets through is the [try] block and its handlers. *)
Lemma dalle_imagine_allowed (e : DalleEngine.t) (now : Q)
    (prov : DalleEngine.provider) (a : DalleEngine.args) :
  snd (DalleEngine.image_rate_limit_check e now (DalleEngine.a_id a)) = true ->
  snd (DalleEngine.imagine e now prov a)
  = DalleEngine.handle (DalleEngine.imagine_body e prov a).
Proof.
  intros Hok. unfold DalleEngine.imagine.
  pose proof (dalle_request_after_check e now (DalleEngine.a_id a) a) as Hreq.
  destruct (DalleEngine.image_rate_limit_check e now (DalleEngine.a_id a))
    as [e1 ok]. simpl in *. subst ok. simpl.
  unfold DalleEngine.imagine_body. now rewrite Hreq.
Qed.

Lemma stability_imagine_allowed (e : StabilityEngine.t) (now : Q)
    (prov : StabilityEngine.provider) (a : StabilityEngine.args) :
  snd (StabilityEngine.image_rate_limit_check e now (StabilityEngine.a_id a))
  = true ->
  snd (StabilityEngine.imagine e now prov a)
  = StabilityEngine.handle (StabilityEngine.imagine_body e prov a).
Proof.
  intros Hok. unfold StabilityEngine.imagine.
  pose proof (stability_request_after_check e now (StabilityEngine.a_id a) a)
    as Hreq.
  pose proof (stability_url_after_check e now (StabilityEngine.a_id a)) as Hurl.
  destruct (StabilityEngine.image_rate_limit_check e now (StabilityEngine.a_id a))
    as [e1 ok]. simpl in *. subst ok. simpl.
  unfold StabilityEngine.imagine_body. now rewrite Hreq, Hurl.
Qed.

(** A denied call answers with the throttling message and nothing else. *)
Lemma dalle_imagine_denied (e : DalleEngine.t) (now : Q)
    (prov : DalleEngine.provider) (a : DalleEngine.args) :
  snd (DalleEngine.image_rate_limit_check e now (DalleEngine.a_id a)) = false ->
  snd (DalleEngine.imagine e now prov a)
  = (None, Some (rate_limited_message
                   (DalleEngine.ImageRateLimitCount (DalleEngine.config e))
                   (DalleEngine.ImageRateLimitTime (DalleEngine.config e)))).
Proof.
  intros Hok. unfold DalleEngine.imagine.
  destruct (DalleEngine.image_rate_limit_check e now (DalleEngine.a_id a))
    as [e1 ok]. simpl in *. now subst ok.
Qed.

Lemma stability_imagine_denied (e : StabilityEngine.t) (now : Q)
    (prov : StabilityEngine.provider) (a : StabilityEngine.args) :
  snd (StabilityEngine.image_rate_limit_check e now (StabilityEngine.a_id a))
  = false ->
  snd (StabilityEngine.imagine e now prov a)
  = (None, Some (rate_limited_message
                   (StabilityEngine.ImageRateLimitCount (StabilityEngine.config e))
                   (StabilityEngine.ImageRateLimitTime (StabilityEngine.config e)))).
Proof.
  intros Hok. unfold StabilityEngine.imagine.
  destruct (StabilityEngine.image_rate_limit_check e now (StabilityEngine.a_id a))
    as [e1 ok]. simpl in *. now subst ok.
Qed.

End ImagineFacts.

Example dalle_throttled_message :
  snd (DalleEngine.imagine
         {| DalleEngine.config := Sample.dalle_settings;
            DalleEngine.end_user_id := false;
            DalleEngine.image_rate_limit := Some (<[IdInt 0 := [1%Q; 2%Q]]> ∅) |}
         3%Q Sample.openai_answers (DalleEngine.default_args (Some (lit "a cat"))))
  = (None, Some (lit "Image generation is rate limited (only 2 images per 1 minutes are allowed). Please try again later.")).
Proof. vm_compute. reflexivity. Qed.

Example dalle_spec_example :
  DalleEngine.imagine_request (Sample.dalle3 false)
    (DalleEngine.default_args (Some (lit "a cat --horizontal --hd")))
  = Val {| DalleEngine.model := lit "dall-e-3";
           DalleEngine.prompt := lit "a cat";
           DalleEngine.size := lit "1792x1024";
           DalleEngine.quality := lit "hd";
           DalleEngine.n := 1;
           DalleEngine.response_format := lit "b64_json";
           DalleEngine.style := lit "vivid";
           DalleEngine.user := lit "None" |}.
Proof. vm_compute. reflexivity. Qed.

Example stability_spec_example :
  StabilityEngine.imagine_request Sample.stability_open
    (StabilityEngine.default_args (Some (lit "a dog --seed 42 --ratio 16:9")))
  = Val {| StabilityEngine.negative_prompt := None;
           StabilityEngine.aspect_ratio := Some (lit "16:9");
           StabilityEngine.seed := Some 42;
           StabilityEngine.prompt := Some (lit "a dog  ");
           StabilityEngine.output_format := Some (lit "jpeg") |}.
Proof. vm_compute. reflexivity. Qed.

(** ** Answers of the provider *)

(** Two literals of the source differ. *)
Ltac literals_differ :=
  let H := fresh in intros H; vm_compute in H; discriminate H.

(** C5, as stated, on the DALL-E engine: a 403 and a 500 of the provider
    both end in the generic handler, so the two outcomes are the same
    [(None, None)] and carry no message at all. *)
Lemma dalle_forbidden_and_server_error_coincide :
  let answer status :=
    snd (DalleEngine.imagine (Sample.dalle3 false) 0%Q
           (Sample.openai_fails status (lit "Error code"))
           (DalleEngine.default_args (Some (lit "a cat")))) in
  answer 403 = (None, None) /\ answer 500 = (None, None) /\
  answer 403 = answer 500.
Proof. vm_compute. repeat split; reflexivity. Qed.

(** C5, amended.  [StabilityEngine.imagine] answers the statuses 400, 403
    and 500 with a message each and every other status but 200, the 429
    of a rate-limited request among them, with the message of its last
    branch; the four messages differ pairwise.
    [DalleEngine.imagine] answers a bad request, a content policy
    violation and a rate-limited request with three messages that differ
    pairwise, and every other error status of the client, 403 and 500
    among them, with [(None, None)].  In both engines the message of a
    content rejection differs from the message of a plain bad request. *)
Theorem provider_failures_classified :
  (forall e now prov a d status body,
      snd (StabilityEngine.image_rate_limit_check e now (StabilityEngine.a_id a))
      = true ->
      StabilityEngine.imagine_request e a = Val d ->
      prov (StabilityEngine.ImageGenURL (StabilityEngine.config e)) d
      = inr {| StabilityEngine.status_code := status;
               StabilityEngine.json_body := body |} ->
      status <> 200 ->
      snd (StabilityEngine.imagine e now prov a)
      = (None,
         Some (if status =? 400 then StabilityEngine.bad_request_message
               else if status =? 403 then StabilityEngine.moderation_message
               else if status =? 500 then StabilityEngine.server_error_message
               else StabilityEngine.failure_message)))
  /\ NoDup [StabilityEngine.bad_request_message;
            StabilityEngine.moderation_message;
            StabilityEngine.server_error_message;
            StabilityEngine.failure_message]
  /\ (forall e now prov a req status text,
      snd (DalleEngine.image_rate_limit_check e now (DalleEngine.a_id a)) = true ->
      DalleEngine.imagine_request e a = Val req ->
      prov req = inl (openai_status_error status text) ->
      snd (DalleEngine.imagine e now prov a)
      = if status =? 400
        then if contains (lit "content_policy_violation") text
             then (None, Some DalleEngine.policy_message)
             else (None, Some DalleEngine.rejected_message)
        else if status =? 429
        then (None, Some DalleEngine.provider_rate_limit_message)
        else (None, None))
  /\ NoDup [DalleEngine.rejected_message; DalleEngine.policy_message;
            DalleEngine.provider_rate_limit_message].
Proof.
  split; [|split; [|split]].
  - intros e now prov a d status body Hok Hreq Hans Hne.
    rewrite stability_imagine_allowed by assumption.
    unfold StabilityEngine.imagine_body. rewrite Hreq. simpl. rewrite Hans.
    unfold StabilityEngine.read_response. simpl.
    destruct (Z.eqb_spec status 200) as [->|_]; [congruence|].
    destruct (status =? 400); [reflexivity|].
    destruct (status =? 403); [reflexivity|].
    now destruct (status =? 500).
  - apply (bool_decide_unpack _). vm_compute. exact I.
  - intros e now prov a req status text Hok Hreq Hans.
    rewrite dalle_imagine_allowed by assumption.
    unfold DalleEngine.imagine_body. rewrite Hreq. simpl. rewrite Hans.
    unfold openai_status_error.
    destruct (status =? 400); [simpl; now destruct (contains _ _)|].
    now destruct (status =? 429).
  - apply (bool_decide_unpack _). vm_compute. exact I.
Qed.

Lemma provider_failures_classified_witness :
  snd (StabilityEngine.imagine Sample.stability_open 0%Q
         (Sample.stability_status 403)
         (StabilityEngine.default_args (Some (lit "a cat"))))
  = (None, Some StabilityEngine.moderation_message)
  /\ snd (DalleEngine.imagine (Sample.dalle3 false) 0%Q
            (Sample.openai_fails 400 (lit "code: content_policy_violation"))
            (DalleEngine.default_args (Some (lit "a cat"))))
     = (None, Some DalleEngine.policy_message).
Proof.
  destruct provider_failures_classified as (HS & _ & HD & _).
  split.
  - eapply (HS Sample.stability_open 0%Q (Sample.stability_status 403)
               (StabilityEngine.default_args (Some (lit "a cat"))) _ 403 None).
    + vm_compute. reflexivity.
    + vm_compute. reflexivity.
    + reflexivity.
    + discriminate.
  - eapply (HD (Sample.dalle3 false) 0%Q
               (Sample.openai_fails 400 (lit "code: content_policy_violation"))
               (DalleEngine.default_args (Some (lit "a cat"))) _ 400
               (lit "code: content_policy_violation")).
    + vm_compute. reflexivity.
    + vm_compute. reflexivity.
    + reflexivity.
Defined.

(** ** Exceptions *)

Section Handlers.

Lemma dalle_handle_unnamed (x : exn) :
  (forall text, x <> BadRequestError text) ->
  (forall text, x <> RateLimitError text) ->
  DalleEngine.handle (Raise x) = (None, None).
Proof.
  intros Hb Hr. destruct x; try reflexivity.
  - now destruct (Hb text).
  - now destruct (Hr text).
Qed.

Lemma dalle_handle_no_image (x : exn) :
  fst (DalleEngine.handle (Raise x)) = None.
Proof. destruct x; try reflexivity. simpl. now destruct (contains _ _). Qed.

Lemma stability_handle_raise (x : exn) :
  StabilityEngine.handle (Raise x) = (None, None).
Proof. reflexivity. Qed.

(** [generate_image] over the engine's own [imagine] returns a tuple. *)
Lemma dalle_generate_image_own (e : DalleEngine.t) (now : Q)
    (prov : DalleEngine.provider) (p : pystr)
    (orientation image_style : option pystr) :
  DalleEngine.generate_image e now prov (Some p) orientation image_style
  = (fst (DalleEngine.imagine e now prov
            (DalleEngine.generate_args p orientation image_style)),
     Some (snd (DalleEngine.imagine e now prov
                  (DalleEngine.generate_args p orientation image_style)))).
Proof.
  unfold DalleEngine.generate_image, DalleEngine.generate_image_with,
    DalleEngine.generate_image_body, DalleEngine.own_imagine.
  now destruct (DalleEngine.imagine _ _ _ _) as [e1 [img msg]].
Qed.

Lemma stability_generate_image_own (e : StabilityEngine.t) (now : Q)
    (prov : StabilityEngine.provider) (p : pystr)
    (orientation image_style : option pystr) :
  StabilityEngine.generate_image e now prov (Some p) orientation image_style
  = (fst (StabilityEngine.imagine e now prov
            (StabilityEngine.generate_args p orientation)),
     Some (snd (StabilityEngine.imagine e now prov
                  (StabilityEngine.generate_args p orientation)))).
Proof.
  unfold StabilityEngine.generate_image, StabilityEngine.generate_image_with,
    StabilityEngine.generate_image_body, StabilityEngine.own_imagine.
  now destruct (StabilityEngine.imagine _ _ _ _) as [e1 [img msg]].
Qed.

End Handlers.

(** Exceptions the [try] block of [imagine] does reach. *)
Example stability_negative_raises_key_error :
  StabilityEngine.imagine_request Sample.stability_open
    (StabilityEngine.default_args (Some (lit "a cat --negative blurry")))
  = Raise KeyError.
Proof. vm_compute. reflexivity. Qed.

Example stability_seed_without_word :
  StabilityEngine.imagine_request Sample.stability_open
    (StabilityEngine.default_args (Some (lit "a cat --seed")))
  = Raise IndexError.
Proof. vm_compute. reflexivity. Qed.

Example stability_seed_not_a_number :
  StabilityEngine.imagine_request Sample.stability_open
    (StabilityEngine.default_args (Some (lit "a cat --seed lucky")))
  = Raise ValueError.
Proof. vm_compute. reflexivity. Qed.

Example dalle_prompt_none :
  DalleEngine.imagine_request (Sample.dalle3 false) (DalleEngine.default_args None)
  = Raise AttributeError.
Proof. vm_compute. reflexivity. Qed.



(** ** [generate_image] *)




(** ** The user field of the DALL-E request *)

Lemma hexdigest_length (msg : list Z) : length (Sha1.hexdigest msg) = 40%nat.
Proof.
  unfold Sha1.hexdigest.
  destruct (Sha1.digest msg) as [[[[h0 h1] h2] h3] h4].
  rewrite !List.length_app. reflexivity.
Qed.




(** ** The directive tokens of the DALL-E engine *)

Section DalleDirectives.

Import DalleEngine.

Lemma literal_not_empty (c : ascii) (s : string) : lit (String c s) <> [].
Proof. discriminate. Qed.

(** One token of the walk: the text loses its occurrences whether the
    test finds any or not. *)
Lemma token_step {A : Type} (tok p : pystr) (x y : A) :
  tok <> [] ->
  (if contains tok p then (x, replace tok [] p) else (y, p))
  = (if contains tok p then x else y, replace tok [] p).
Proof.
  intros Hne. destruct (contains tok p) eqn:E; [reflexivity|].
  now rewrite replace_absent.
Qed.

(** What the walk over the tokens leaves, written on the working prompt
    each token is looked up in. *)
Lemma dalle_directives_walk (e : t) (p st qu sz : pystr) :
  directives e p st qu sz
  = let p0 := normalised p in
    let p1 := replace (lit "--natural") [] p0 in
    let p2 := replace (lit "--vivid") [] p1 in
    let p3 := replace (lit "--sd") [] p2 in
    let p4 := replace (lit "--hd") [] p3 in
    let p5 := replace (lit "--horizontal") [] p4 in
    (without_tokens p0,
     if contains (lit "--vivid") p1 then lit "vivid"
     else if contains (lit "--natural") p0 then lit "natural" else st,
     if contains (lit "--hd") p3 then lit "hd"
     else if contains (lit "--sd") p2 then lit "standard" else qu,
     if decide (ImageGenModel (config e) = lit "dall-e-3")
     then if contains (lit "--vertical") p5 then lit "1024x1792"
          else if contains (lit "--horizontal") p4 then lit "1792x1024" else sz
     else sz).
Proof.
  unfold directives, without_tokens, normalised. cbv zeta.
  do 6 (rewrite token_step by apply literal_not_empty; cbv beta iota).
  f_equal.
  destruct (decide (ImageGenModel (config e) = lit "dall-e-3"));
    [reflexivity|].
  now repeat destruct (contains _ _).
Qed.

(** The request in terms of the arguments and the normalised prompt. *)
Lemma dalle_request_fields (e : t) (a : args) (p : pystr) (req : request) :
  a_prompt a = Some p -> imagine_request e a = Val req ->
  let p0 := normalised p in
  let p1 := replace (lit "--natural") [] p0 in
  let p2 := replace (lit "--vivid") [] p1 in
  let p3 := replace (lit "--sd") [] p2 in
  let p4 := replace (lit "--hd") [] p3 in
  let p5 := replace (lit "--horizontal") [] p4 in
  prompt req = strip (without_tokens p0) /\
  prompt req <> [] /\
  style req = (if contains (lit "--vivid") p1 then lit "vivid"
               else if contains (lit "--natural") p0 then lit "natural"
               else a_style a) /\
  quality req = (if contains (lit "--hd") p3 then lit "hd"
                 else if contains (lit "--sd") p2 then lit "standard"
                 else a_quality a) /\
  size req = (if decide (ImageGenModel (config e) = lit "dall-e-3")
              then if contains (lit "--vertical") p5 then lit "1024x1792"
                   else if contains (lit "--horizontal") p4 then lit "1792x1024"
                   else a_size a
              else a_size a) /\
  model req = ImageGenModel (config e) /\ n req = a_n a.
Proof.
  intros Hp H. unfold imagine_request in H. rewrite Hp in H. simpl in H.
  rewrite dalle_directives_walk in H. cbv beta iota zeta in H.
  destruct (decide (strip (without_tokens (normalised p)) = [])) as [|Hne];
    [discriminate|].
  destruct (end_user_id e).
  - destruct (encode_utf8 _); [|discriminate]. simpl in H.
    injection H as <-. simpl. repeat split; try reflexivity. exact Hne.
  - simpl in H. injection H as <-. simpl. repeat split; try reflexivity.
    exact Hne.
Qed.

(** A prompt that the tokens and the trimming leave empty is answered
    without a request. *)
Lemma dalle_empty_after_tokens (e : t) (a : args) (p : pystr) :
  a_prompt a = Some p -> strip (without_tokens (normalised p)) = [] ->
  imagine_request e a = Return (None, Some empty_prompt_message).
Proof.
  intros Hp H. unfold imagine_request. rewrite Hp. simpl.
  rewrite dalle_directives_walk. cbv beta iota zeta. now rewrite decide_True.
Qed.

(** The tokens are pairwise apart, and apart from the em dash. *)
Lemma vivid_kept (p0 : pystr) :
  contains (lit "--vivid") p0 = true ->
  contains (lit "--vivid") (replace (lit "--natural") [] p0) = true.
Proof. apply replace_keeps; [apply literal_not_empty | reflexivity]. Qed.

Lemma hd_kept (p0 : pystr) :
  contains (lit "--hd") p0 = true ->
  contains (lit "--hd")
    (replace (lit "--sd") []
       (replace (lit "--vivid") [] (replace (lit "--natural") [] p0))) = true.
Proof.
  intros H.
  repeat (apply replace_keeps; [apply literal_not_empty | reflexivity |]).
  exact H.
Qed.

Lemma vertical_kept (p0 : pystr) :
  contains (lit "--vertical") p0 = true ->
  contains (lit "--vertical")
    (replace (lit "--horizontal") []
       (replace (lit "--hd") []
          (replace (lit "--sd") []
             (replace (lit "--vivid") []
                (replace (lit "--natural") [] p0))))) = true.
Proof.
  intros H.
  repeat (apply replace_keeps; [apply literal_not_empty | reflexivity |]).
  exact H.
Qed.

Lemma normalised_keeps (tok p : pystr) :
  apart emdash tok = true ->
  contains tok p = true -> contains tok (normalised p) = true.
Proof. intros Ha. apply replace_keeps; [discriminate | exact Ha]. Qed.

(** A single token in a text without other hyphens is cut out exactly. *)
Lemma dalle_single_token (tok u v : pystr) :
  In tok [lit "--natural"; lit "--vivid"; lit "--sd"; lit "--hd";
          lit "--horizontal"; lit "--vertical"] ->
  ~ In 45%N u -> ~ In 45%N v ->
  without_tokens (u ++ tok ++ v) = u ++ v.
Proof.
  intros Htok Hu Hv. unfold without_tokens.
  repeat (destruct Htok as [<-|Htok]);
    [delete_token (lit "--natural") u v; delete_token (lit "--vivid") u v;
     delete_token (lit "--sd") u v; delete_token (lit "--hd") u v;
     delete_token (lit "--horizontal") u v;
     delete_token (lit "--vertical") u v; reflexivity ..|].
  destruct Htok.
Qed.

(** A text without hyphens holds no token and passes as it is. *)
Lemma dalle_no_token (s : pystr) : ~ In 45%N s -> without_tokens s = s.
Proof.
  intros Hs. unfold without_tokens.
  repeat (rewrite (replace_absent _ [] s)
            by first [discriminate | apply token_absent; [reflexivity|assumption]]).
  reflexivity.
Qed.

Ltac kept :=
  repeat (apply replace_keeps; [apply literal_not_empty | reflexivity |]);
  assumption.

(** A token of the normalised prompt sets its parameter, whatever the
    argument of the call was. *)
Lemma dalle_token_sets (e : t) (a : args) (p : pystr) (req : request) :
  a_prompt a = Some p -> imagine_request e a = Val req ->
  let p0 := normalised p in
  let p1 := replace (lit "--natural") [] p0 in
  let p3 := replace (lit "--sd") [] (replace (lit "--vivid") [] p1) in
  let p5 := replace (lit "--horizontal") [] (replace (lit "--hd") [] p3) in
  (contains (lit "--vivid") p0 = true -> style req = lit "vivid") /\
  (contains (lit "--natural") p0 = true ->
   style req = if contains (lit "--vivid") p1 then lit "vivid"
               else lit "natural") /\
  (contains (lit "--hd") p0 = true -> quality req = lit "hd") /\
  (contains (lit "--sd") p0 = true ->
   quality req = if contains (lit "--hd") p3 then lit "hd"
                 else lit "standard") /\
  (ImageGenModel (config e) = lit "dall-e-3" ->
   contains (lit "--vertical") p0 = true -> size req = lit "1024x1792") /\
  (ImageGenModel (config e) = lit "dall-e-3" ->
   contains (lit "--horizontal") p0 = true ->
   size req = if contains (lit "--vertical") p5 then lit "1024x1792"
              else lit "1792x1024") /\
  (ImageGenModel (config e) <> lit "dall-e-3" -> size req = a_size a).
Proof.
  intros Hp H.
  destruct (dalle_request_fields e a p req Hp H)
    as (_ & _ & Hstyle & Hquality & Hsize & _).
  cbv zeta in *. repeat split.
  - intros Hc. rewrite Hstyle. now rewrite vivid_kept.
  - intros Hc. rewrite Hstyle, Hc. reflexivity.
  - intros Hc. rewrite Hquality. now rewrite hd_kept.
  - intros Hc. rewrite Hquality.
    assert (Hk : contains (lit "--sd")
                   (replace (lit "--vivid") []
                      (replace (lit "--natural") [] (normalised p))) = true)
      by kept.
    now rewrite Hk.
  - intros Hm Hc. rewrite Hsize, decide_True by assumption.
    now rewrite vertical_kept.
  - intros Hm Hc. rewrite Hsize, decide_True by assumption.
    assert (Hk : contains (lit "--horizontal")
                   (replace (lit "--hd") []
                      (replace (lit "--sd") []
                         (replace (lit "--vivid") []
                            (replace (lit "--natural") [] (normalised p)))))
                 = true) by kept.
    now rewrite Hk.
  - intros Hm. rewrite Hsize. now rewrite decide_False.
Qed.

(** Without tokens the request carries the arguments of the call. *)
Lemma dalle_arguments_pass (e : t) (a : args) (p : pystr) (req : request) :
  a_prompt a = Some p -> imagine_request e a = Val req ->
  let p0 := normalised p in
  (contains (lit "--natural") p0 = false ->
   contains (lit "--vivid") p0 = false -> style req = a_style a) /\
  (contains (lit "--natural") p0 = false ->
   contains (lit "--vivid") p0 = false ->
   contains (lit "--sd") p0 = false ->
   contains (lit "--hd") p0 = false -> quality req = a_quality a) /\
  (contains (lit "--natural") p0 = false ->
   contains (lit "--vivid") p0 = false ->
   contains (lit "--sd") p0 = false ->
   contains (lit "--hd") p0 = false ->
   contains (lit "--horizontal") p0 = false ->
   contains (lit "--vertical") p0 = false ->
   size req = a_size a /\ prompt req = strip p0).
Proof.
  intros Hp H.
  destruct (dalle_request_fields e a p req Hp H)
    as (Hprompt & _ & Hstyle & Hquality & Hsize & _).
  cbv zeta in *. unfold without_tokens in Hprompt.
  split; [|split].
  - intros H1 H2.
    rewrite (replace_absent (lit "--natural")) in Hstyle
      by (discriminate || assumption).
    now rewrite Hstyle, H1, H2.
  - intros H1 H2 H3 H4.
    rewrite (replace_absent (lit "--natural")) in Hquality
      by (discriminate || assumption).
    rewrite (replace_absent (lit "--vivid")) in Hquality
      by (discriminate || assumption).
    rewrite (replace_absent (lit "--sd")) in Hquality
      by (discriminate || assumption).
    now rewrite Hquality, H3, H4.
  - intros H1 H2 H3 H4 H5 H6.
    rewrite (replace_absent (lit "--natural")) in Hsize, Hprompt
      by (discriminate || assumption).
    rewrite (replace_absent (lit "--vivid")) in Hsize, Hprompt
      by (discriminate || assumption).
    rewrite (replace_absent (lit "--sd")) in Hsize, Hprompt
      by (discriminate || assumption).
    rewrite (replace_absent (lit "--hd")) in Hsize, Hprompt
      by (discriminate || assumption).
    rewrite (replace_absent (lit "--horizontal")) in Hsize, Hprompt
      by (discriminate || assumption).
    rewrite (replace_absent (lit "--vertical")) in Hprompt
      by (discriminate || assumption).
    split; [|exact Hprompt].
    rewrite Hsize, H5, H6. now destruct (decide _).
Qed.

End DalleDirectives.

(** ** [strip] *)

Section StripFacts.

Lemma lstrip_head (s : pystr) (c : N) (r : pystr) :
  lstrip s = c :: r -> isspace c = false.
Proof.
  induction s as [|b s IH]; simpl; [discriminate|].
  destruct (isspace b) eqn:E; [exact IH|].
  intros H. injection H as <- _. exact E.
Qed.

Lemma lstrip_suffix (s : pystr) : exists ws, s = ws ++ lstrip s.
Proof.
  induction s as [|b s [ws IH]]; simpl; [now exists []|].
  destruct (isspace b).
  - exists (b :: ws). simpl. now rewrite <- IH.
  - now exists [].
Qed.

Lemma rstrip_prefix (s : pystr) : exists ws, s = rstrip s ++ ws.
Proof.
  unfold rstrip. destruct (lstrip_suffix (List.rev s)) as [ws H].
  exists (List.rev ws).
  rewrite <- List.rev_app_distr, <- H. now rewrite List.rev_involutive.
Qed.

Lemma rstrip_last (s r : pystr) (c : N) :
  rstrip s = r ++ [c] -> isspace c = false.
Proof.
  unfold rstrip. intros H.
  apply (f_equal (@List.rev N)) in H.
  rewrite List.rev_involutive, List.rev_app_distr in H. simpl in H.
  now apply lstrip_head in H.
Qed.

(** A stripped string neither starts nor ends with whitespace. *)
Lemma strip_trimmed (s : pystr) :
  (forall c r, strip s = c :: r -> isspace c = false) /\
  (forall r c, strip s = r ++ [c] -> isspace c = false).
Proof.
  unfold strip. split.
  - intros c r H. destruct (rstrip_prefix (lstrip s)) as [ws Hws].
    rewrite H in Hws. simpl in Hws. now apply lstrip_head in Hws.
  - intros r c. apply rstrip_last.
Qed.

Lemma lstrip_spaces (ws s : pystr) :
  List.Forall (fun c => isspace c = true) ws -> lstrip (ws ++ s) = lstrip s.
Proof. induction 1 as [|c ws Hc _ IH]; simpl; [reflexivity|]. now rewrite Hc. Qed.

Lemma lstrip_fixed (c : N) (s : pystr) :
  isspace c = false -> lstrip (c :: s) = c :: s.
Proof. intros H. simpl. now rewrite H. Qed.

Lemma lstrip_app (a b : pystr) :
  lstrip (a ++ b) = match lstrip a with [] => lstrip b | _ :: _ => lstrip a ++ b end.
Proof.
  induction a as [|c a IH]; simpl.
  - now destruct (lstrip b).
  - destruct (isspace c); [exact IH|reflexivity].
Qed.

(** A word: characters that are not whitespace, at least one. *)
Lemma word_last (w : pystr) :
  w <> [] -> List.Forall (fun c => isspace c = false) w ->
  exists c r, List.rev w = c :: r /\ isspace c = false.
Proof.
  intros Hne Hw. destruct (List.rev w) as [|c r] eqn:E.
  - apply (f_equal (@List.rev N)) in E. rewrite List.rev_involutive in E.
    contradiction.
  - exists c, r. split; [reflexivity|].
    rewrite List.Forall_forall in Hw. apply Hw.
    apply List.in_rev. rewrite E. now left.
Qed.

Lemma rstrip_after_word (w v : pystr) :
  w <> [] -> List.Forall (fun c => isspace c = false) w ->
  rstrip (w ++ v) = w ++ rstrip v.
Proof.
  intros Hne Hw. unfold rstrip.
  destruct (word_last w Hne Hw) as (c & r & Hrev & Hc).
  rewrite List.rev_app_distr, lstrip_app, Hrev.
  destruct (lstrip (List.rev v)) as [|b l] eqn:E.
  - rewrite lstrip_fixed by assumption. rewrite <- Hrev.
    now rewrite List.rev_involutive, List.app_nil_r.
  - rewrite <- Hrev, List.rev_app_distr. now rewrite List.rev_involutive.
Qed.

Lemma strip_word (w : pystr) :
  w <> [] -> List.Forall (fun c => isspace c = false) w -> strip w = w.
Proof.
  intros Hne Hw. unfold strip.
  destruct w as [|c w]; [contradiction|].
  rewrite lstrip_fixed by (now inversion Hw).
  rewrite <- (List.app_nil_r (c :: w)) at 1.
  rewrite rstrip_after_word by assumption.
  now rewrite List.app_nil_r.
Qed.

Lemma words_from_word (w cur s : pystr) :
  List.Forall (fun c => isspace c = false) w ->
  words_from cur (w ++ s) = words_from (List.rev w ++ cur) s.
Proof.
  intros Hw. revert cur. induction Hw as [|c w Hc _ IH]; intros cur.
  - reflexivity.
  - cbn [app words_from]. rewrite Hc, IH. simpl.
    now rewrite <- List.app_assoc.
Qed.

(** The first word of a text that starts with it. *)
Lemma first_word (w v : pystr) :
  w <> [] -> List.Forall (fun c => isspace c = false) w ->
  (v = [] \/ exists c v', v = c :: v' /\ isspace c = true) ->
  nth_error (words (w ++ v)) 0 = Some w.
Proof.
  intros Hne Hw Hv. unfold words. rewrite words_from_word by assumption.
  rewrite List.app_nil_r.
  assert (Hrev : List.rev w <> []).
  { intros E. apply (f_equal (@List.rev N)) in E.
    rewrite List.rev_involutive in E. contradiction. }
  destruct Hv as [->|(c & v' & -> & Hc)].
  - cbn [words_from]. destruct (List.rev w) as [|b l] eqn:E; [contradiction|].
    cbn [nth_error]. rewrite <- E. now rewrite List.rev_involutive.
  - cbn [words_from]. rewrite Hc.
    destruct (List.rev w) as [|b l] eqn:E; [contradiction|].
    cbn [nth_error]. rewrite <- E. now rewrite List.rev_involutive.
Qed.

(** The word the code takes after a token, on a text that starts with
    whitespace, the word, and then nothing or more whitespace. *)
Lemma word_after_spaces (ws w v : pystr) :
  List.Forall (fun c => isspace c = true) ws ->
  w <> [] -> List.Forall (fun c => isspace c = false) w ->
  (v = [] \/ exists c v', v = c :: v' /\ isspace c = true) ->
  nth_error (words (strip (ws ++ w ++ v))) 0 = Some w.
Proof.
  intros Hws Hne Hw Hv. unfold strip.
  rewrite lstrip_spaces by assumption.
  destruct w as [|c w]; [contradiction|].
  cbn [app]. rewrite lstrip_fixed by (now inversion Hw).
  change (c :: w ++ v) with ((c :: w) ++ v).
  rewrite rstrip_after_word by assumption.
  apply first_word; try assumption.
  destruct (rstrip_prefix v) as [tail Htail].
  destruct (rstrip v) as [|b l]; [now left|].
  right. exists b, l. split; [reflexivity|].
  destruct Hv as [->|(c0 & v' & -> & Hc0)]; [discriminate|].
  simpl in Htail. now injection Htail as -> _.
Qed.

End StripFacts.

(** ** The empty prompt *)

(** On the DALL-E engine the prompt that is sent has been trimmed and is
    not empty; a prompt the tokens leave empty is answered with the
    message and no request. *)
Lemma dalle_prompt_trimmed_or_refused (e : DalleEngine.t) (a : DalleEngine.args)
    (p : pystr) :
  DalleEngine.a_prompt a = Some p ->
  (strip (DalleEngine.without_tokens (DalleEngine.normalised p)) = [] ->
   DalleEngine.imagine_request e a
   = Return (None, Some DalleEngine.empty_prompt_message))
  /\ (forall req, DalleEngine.imagine_request e a = Val req ->
        DalleEngine.prompt req
        = strip (DalleEngine.without_tokens (DalleEngine.normalised p)) /\
        DalleEngine.prompt req <> [] /\
        (forall c r, DalleEngine.prompt req = c :: r -> isspace c = false) /\
        (forall r c, DalleEngine.prompt req = r ++ [c] -> isspace c = false)).
Proof.
  intros Hp. split.
  - now apply dalle_empty_after_tokens.
  - intros req H.
    destruct (dalle_request_fields e a p req Hp H) as (Hprompt & Hne & _).
    rewrite Hprompt in *. repeat split; try assumption; apply strip_trimmed.
Qed.

Example dalle_directive_only_prompt :
  DalleEngine.imagine_request (Sample.dalle3 false)
    (DalleEngine.default_args (Some (lit "--hd --vivid")))
  = Return (None, Some (lit "No text prompt was given. Please try again.")).
Proof. vm_compute. reflexivity. Qed.

(** C4 on the Stability engine, at the prompt ["--horizontal"] and the
    default configuration: the empty test comes before the tokens are
    taken out and nothing trims the prompt, so the request goes out with
    an empty prompt and the answer of the provider comes back; the prompt
    ["a cat --horizontal"] goes out with its trailing space. *)
Theorem stability_sends_directive_only_prompt :
  StabilityEngine.imagine_request Sample.stability_open
    (StabilityEngine.default_args (Some (lit "--horizontal")))
  = Val {| StabilityEngine.negative_prompt := None;
           StabilityEngine.aspect_ratio := Some (lit "1:1");
           StabilityEngine.seed := Some 0;
           StabilityEngine.prompt := Some [];
           StabilityEngine.output_format := Some (lit "jpeg") |}
  /\ snd (StabilityEngine.imagine Sample.stability_open 0%Q
            Sample.stability_answers
            (StabilityEngine.default_args (Some (lit "--horizontal"))))
     = (Some (lit "aGVsbG8="), None)
  /\ StabilityEngine.imagine_request Sample.stability_open
       (StabilityEngine.default_args (Some (lit "a cat --horizontal")))
     = Val {| StabilityEngine.negative_prompt := None;
              StabilityEngine.aspect_ratio := Some (lit "1:1");
              StabilityEngine.seed := Some 0;
              StabilityEngine.prompt := Some (lit "a cat ");
              StabilityEngine.output_format := Some (lit "jpeg") |}.
Proof. repeat split; vm_compute; reflexivity. Qed.

(** ** [split] and the word after a token *)

Section SplitFacts.

Lemma split_from_skip (sep : pystr) (k : nat) (cur s : pystr) :
  split_from sep k cur s = split_from sep 0 cur (skipn k s).
Proof.
  revert k. induction s as [|c s IH]; intros k.
  - now destruct k.
  - destruct k as [|k]; [reflexivity|]. simpl. apply IH.
Qed.

Lemma split_from_hyphen_free (r cur u s : pystr) :
  ~ In 45%N u ->
  split_from (45%N :: r) 0 cur (u ++ s)
  = split_from (45%N :: r) 0 (List.rev u ++ cur) s.
Proof.
  revert cur. induction u as [|b u IH]; intros cur Hu; [reflexivity|].
  cbn [app split_from]. rewrite startswith_other_head.
  - rewrite IH by (intros H; apply Hu; now right).
    simpl. now rewrite <- List.app_assoc.
  - intros ->. apply Hu. now left.
Qed.

Lemma split_single (r u rest : pystr) :
  ~ In 45%N u -> ~ In 45%N rest ->
  split (45%N :: r) (u ++ (45%N :: r) ++ rest) = [u; rest].
Proof.
  intros Hu Hrest. unfold split.
  rewrite split_from_hyphen_free by assumption.
  rewrite List.app_nil_r.
  change ((45%N :: r) ++ rest) with (45%N :: (r ++ rest)).
  cbn [split_from].
  change (45%N :: (r ++ rest)) with ((45%N :: r) ++ rest).
  rewrite startswith_app, List.rev_involutive. f_equal.
  rewrite split_from_skip. cbn [length Nat.pred].
  rewrite List.skipn_app, List.skipn_all, Nat.sub_diag, List.skipn_O.
  cbn [app].
  rewrite <- (List.app_nil_r rest) at 1.
  rewrite split_from_hyphen_free by assumption.
  cbn [split_from]. now rewrite List.app_nil_r, List.rev_involutive.
Qed.

Lemma token_split (tok u rest : pystr) :
  List.hd 0%N tok = 45%N -> ~ In 45%N u -> ~ In 45%N rest ->
  split tok (u ++ tok ++ rest) = [u; rest].
Proof.
  destruct tok as [|c r]; [discriminate|]. simpl List.hd. intros ->.
  apply split_single.
Qed.

End SplitFacts.

(** ** The directive tokens of the Stability engine *)

Section StabilityDirectives.

Import StabilityEngine.

(** The dict after the configuration and the arguments of the call. *)
Lemma seed_data_fields (e : t) (a : args) :
  negative_prompt (seed_data e a)
  = match NegativePrompt (config e), a_negative_prompt a with
    | Some d, Some np => Some (d ++ lit "; " ++ np)
    | None, Some np => Some np
    | d, None => d
    end
  /\ aspect_ratio (seed_data e a)
     = (if decide (a_ratio a = lit "1:1") then ImageGenerationSize (config e)
        else Some (a_ratio a))
  /\ seed (seed_data e a)
     = (if a_seed a >? 0 then Some (a_seed a) else Seed (config e))
  /\ prompt (seed_data e a) = None
  /\ output_format (seed_data e a) = None.
Proof.
  unfold seed_data.
  destruct (NegativePrompt (config e)), (ImageGenerationSize (config e)),
    (Seed (config e)), (a_negative_prompt a), (a_seed a >? 0),
    (decide (a_ratio a = lit "1:1")); simpl; repeat split; reflexivity.
Qed.

(** What a walk that ends without an exception has done: [p3] and [p4]
    are the working prompts [--negative] and [--seed] are looked up in. *)
Ltac fields_in H :=
  cbn [StabilityEngine.aspect_ratio StabilityEngine.negative_prompt
       StabilityEngine.seed StabilityEngine.prompt
       StabilityEngine.output_format StabilityEngine.set_seed
       StabilityEngine.set_negative_prompt StabilityEngine.set_aspect_ratio
       StabilityEngine.set_prompt StabilityEngine.set_output_format] in H.

Ltac fields :=
  cbn [StabilityEngine.aspect_ratio StabilityEngine.negative_prompt
       StabilityEngine.seed StabilityEngine.prompt
       StabilityEngine.output_format StabilityEngine.set_seed
       StabilityEngine.set_negative_prompt StabilityEngine.set_aspect_ratio
       StabilityEngine.set_prompt StabilityEngine.set_output_format].

Lemma stability_directives_walk (p ratio : pystr) (d : data) (r p' : pystr) (d' : data) :
  directives p ratio d = Val (r, p', d') ->
  let p2 := without_orientation p in
  exists p3 p4,
    ((contains (lit "--ratio") p2 = false /\ p3 = p2 /\
      aspect_ratio d' = aspect_ratio d)
     \/ (contains (lit "--ratio") p2 = true /\
         exists w, argument_of (R := result) (lit "--ratio") p2 = Val w /\
                   p3 = replace (lit "--ratio " ++ w) [] p2 /\
                   aspect_ratio d' = Some w))
    /\ ((contains (lit "--negative") p3 = false /\ p4 = p3 /\
         negative_prompt d' = negative_prompt d)
        \/ (contains (lit "--negative") p3 = true /\
            exists w old,
              argument_of (R := result) (lit "--negative") p3 = Val w /\
              negative_prompt d = Some old /\
              p4 = replace (lit "--negative " ++ w) [] p3 /\
              negative_prompt d' = Some (old ++ lit "; " ++ w)))
    /\ ((contains (lit "--seed") p4 = false /\ p' = p4 /\ seed d' = seed d)
        \/ (contains (lit "--seed") p4 = true /\
            exists w v,
              argument_of (R := result) (lit "--seed") p4 = Val w /\
              int_of_str w = Some v /\
              p' = replace (lit "--seed " ++ w) [] p4 /\
              seed d' = Some v))
    /\ prompt d' = prompt d /\ output_format d' = output_format d.
Proof.
  unfold directives, without_orientation. intros H.
  do 2 (rewrite token_step in H by apply literal_not_empty;
        cbv beta iota in H).
  cbv zeta.
  set (p2 := replace (lit "--vertical") [] (replace (lit "--horizontal") [] p))
    in *.
  destruct (contains (lit "--ratio") p2) eqn:E1.
  - destruct (argument_of (R := result) (lit "--ratio") p2) as [w| |] eqn:A1;
      try discriminate. cbn [bind] in H; cbv beta iota in H; fields_in H.
    set (p3 := replace (lit "--ratio " ++ w) [] p2) in *.
    destruct (contains (lit "--negative") p3) eqn:E2.
    + destruct (argument_of (R := result) (lit "--negative") p3) as [w2| |] eqn:A2;
        try discriminate. cbn [bind] in H; cbv beta iota in H; fields_in H.
      destruct (negative_prompt d) as [old|] eqn:Hold; try discriminate.
      cbn [bind] in H; cbv beta iota in H; fields_in H.
      set (p4 := replace (lit "--negative " ++ w2) [] p3) in *.
      destruct (contains (lit "--seed") p4) eqn:E3.
      * destruct (argument_of (R := result) (lit "--seed") p4) as [w3| |] eqn:A3;
          try discriminate. cbn [bind] in H; cbv beta iota in H; fields_in H.
        destruct (int_of_str w3) as [v|] eqn:Hv; try discriminate.
        cbn [bind] in H; cbv beta iota in H; fields_in H. injection H as <- <- <-.
        exists p3, p4. fields. repeat split.
        -- right. split; [first [reflexivity|assumption]|]. exists w. now repeat split.
        -- right. split; [first [reflexivity|assumption]|]. exists w2, old. now repeat split.
        -- right. split; [first [reflexivity|assumption]|]. exists w3, v. now repeat split.
      * cbn [bind] in H; cbv beta iota in H; fields_in H. injection H as <- <- <-.
        exists p3, p4. fields. repeat split.
        -- right. split; [first [reflexivity|assumption]|]. exists w. now repeat split.
        -- right. split; [first [reflexivity|assumption]|]. exists w2, old. now repeat split.
        -- left. now repeat split.
    + cbn [bind] in H; cbv beta iota in H; fields_in H. destruct (contains (lit "--seed") p3) eqn:E3.
      * destruct (argument_of (R := result) (lit "--seed") p3) as [w3| |] eqn:A3;
          try discriminate. cbn [bind] in H; cbv beta iota in H; fields_in H.
        destruct (int_of_str w3) as [v|] eqn:Hv; try discriminate.
        cbn [bind] in H; cbv beta iota in H; fields_in H. injection H as <- <- <-.
        exists p3, p3. fields. repeat split.
        -- right. split; [first [reflexivity|assumption]|]. exists w. now repeat split.
        -- left. now repeat split.
        -- right. split; [first [reflexivity|assumption]|]. exists w3, v. now repeat split.
      * cbn [bind] in H; cbv beta iota in H; fields_in H. injection H as <- <- <-.
        exists p3, p3. fields. repeat split.
        -- right. split; [first [reflexivity|assumption]|]. exists w. now repeat split.
        -- left. now repeat split.
        -- left. now repeat split.
  - cbn [bind] in H; cbv beta iota in H; fields_in H. destruct (contains (lit "--negative") p2) eqn:E2.
    + destruct (argument_of (R := result) (lit "--negative") p2) as [w2| |] eqn:A2;
        try discriminate. cbn [bind] in H; cbv beta iota in H; fields_in H.
      destruct (negative_prompt d) as [old|] eqn:Hold; try discriminate.
      cbn [bind] in H; cbv beta iota in H; fields_in H.
      set (p4 := replace (lit "--negative " ++ w2) [] p2) in *.
      destruct (contains (lit "--seed") p4) eqn:E3.
      * destruct (argument_of (R := result) (lit "--seed") p4) as [w3| |] eqn:A3;
          try discriminate. cbn [bind] in H; cbv beta iota in H; fields_in H.
        destruct (int_of_str w3) as [v|] eqn:Hv; try discriminate.
        cbn [bind] in H; cbv beta iota in H; fields_in H. injection H as <- <- <-.
        exists p2, p4. fields. repeat split.
        -- left. now repeat split.
        -- right. split; [first [reflexivity|assumption]|]. exists w2, old. now repeat split.
        -- right. split; [first [reflexivity|assumption]|]. exists w3, v. now repeat split.
      * cbn [bind] in H; cbv beta iota in H; fields_in H. injection H as <- <- <-.
        exists p2, p4. fields. repeat split.
        -- left. now repeat split.
        -- right. split; [first [reflexivity|assumption]|]. exists w2, old. now repeat split.
        -- left. now repeat split.
    + cbn [bind] in H; cbv beta iota in H; fields_in H. destruct (contains (lit "--seed") p2) eqn:E3.
      * destruct (argument_of (R := result) (lit "--seed") p2) as [w3| |] eqn:A3;
          try discriminate. cbn [bind] in H; cbv beta iota in H; fields_in H.
        destruct (int_of_str w3) as [v|] eqn:Hv; try discriminate.
        cbn [bind] in H; cbv beta iota in H; fields_in H. injection H as <- <- <-.
        exists p2, p2. fields. repeat split.
        -- left. now repeat split.
        -- left. now repeat split.
        -- right. split; [first [reflexivity|assumption]|]. exists w3, v. now repeat split.
      * cbn [bind] in H; cbv beta iota in H; fields_in H. injection H as <- <- <-.
        exists p2, p2. fields. repeat split.
        -- left. now repeat split.
        -- left. now repeat split.
        -- left. now repeat split.
Qed.

(** The working prompts of the walk, and the request it leads to. *)
Lemma stability_request_fields (e : t) (a : args) (p : pystr) (d : data) :
  a_prompt a = Some p -> imagine_request e a = Val d ->
  let p2 := without_orientation (normalised p) in
  let p3 := without_argument (lit "--ratio") p2 in
  let p4 := without_argument (lit "--negative") p3 in
  let d0 := seed_data e a in
  p <> [] /\
  prompt d = Some (without_argument (lit "--seed") p4) /\
  output_format d = Some (a_output_format a) /\
  (if contains (lit "--ratio") p2
   then exists w, argument_of (R := result) (lit "--ratio") p2 = Val w /\
                  aspect_ratio d = Some w
   else aspect_ratio d = aspect_ratio d0) /\
  (if contains (lit "--negative") p3
   then exists w old,
       argument_of (R := result) (lit "--negative") p3 = Val w /\
       negative_prompt d0 = Some old /\
       negative_prompt d = Some (old ++ lit "; " ++ w)
   else negative_prompt d = negative_prompt d0) /\
  (if contains (lit "--seed") p4
   then exists w v,
       argument_of (R := result) (lit "--seed") p4 = Val w /\
       int_of_str w = Some v /\ seed d = Some v
   else seed d = seed d0).
Proof.
  intros Hp H. unfold imagine_request in H. rewrite Hp in H.
  destruct (decide (p = [])) as [|Hne]; [discriminate|].
  cbv zeta in H.
  destruct (directives _ (a_ratio a) (seed_data e a)) as [[[r p'] d']| |] eqn:Hw;
    try discriminate.
  cbn [bind] in H; cbv beta iota in H. injection H as <-.
  apply stability_directives_walk in Hw. cbv zeta in Hw.
  fold (normalised p) in Hw.
  destruct Hw as (p3 & p4 & H1 & H2 & H3 & _ & _).
  cbv zeta. fields. split; [exact Hne|].
  set (p2 := without_orientation (normalised p)) in *.
  assert (Hp3 : p3 = without_argument (lit "--ratio") p2).
  { unfold without_argument.
    destruct H1 as [(-> & -> & _)|(-> & w & -> & -> & _)]; reflexivity. }
  subst p3.
  set (p3 := without_argument (lit "--ratio") p2) in *.
  assert (Hp4 : p4 = without_argument (lit "--negative") p3).
  { unfold without_argument.
    destruct H2 as [(-> & -> & _)|(-> & w & old & -> & _ & -> & _)];
      reflexivity. }
  subst p4.
  set (p4 := without_argument (lit "--negative") p3) in *.
  assert (Hp' : p' = without_argument (lit "--seed") p4).
  { unfold without_argument.
    destruct H3 as [(-> & -> & _)|(-> & w & v & -> & _ & -> & _)];
      reflexivity. }
  subst p'.
  repeat split.
  - destruct H1 as [(-> & _ & H1)|(-> & w & Hw & _ & H1)]; eauto.
  - destruct H2 as [(-> & _ & H2)|(-> & w & old & Hw & Hold & _ & H2)]; eauto.
  - destruct H3 as [(-> & _ & H3)|(-> & w & v & Hw & Hv & _ & H3)]; eauto.
Qed.

(** A token with its word, one space between them, in a text without
    other hyphens: the code finds the word and cuts both out exactly. *)
Lemma stability_single_argument (tok u w v : pystr) :
  List.hd 0%N tok = 45%N ->
  ~ In 45%N u -> ~ In 45%N w -> ~ In 45%N v ->
  w <> [] -> List.Forall (fun c => isspace c = false) w ->
  (v = [] \/ exists c v', v = c :: v' /\ isspace c = true) ->
  contains tok (u ++ tok ++ lit " " ++ w ++ v) = true /\
  argument_of (R := result) tok (u ++ tok ++ lit " " ++ w ++ v) = Val w /\
  without_argument tok (u ++ tok ++ lit " " ++ w ++ v) = u ++ v.
Proof.
  intros Htok Hu Hw Hv Hne Hword Htail.
  assert (Hc : contains tok (u ++ tok ++ lit " " ++ w ++ v) = true).
  { apply contains_spec. eauto. }
  assert (Ha : argument_of (R := result) tok (u ++ tok ++ lit " " ++ w ++ v)
               = Val w).
  { unfold argument_of.
    rewrite token_split; try assumption.
    - cbn [index nth_error bind].
      unfold index.
      rewrite (word_after_spaces (lit " ") w v); try assumption.
      + cbn [bind]. now rewrite strip_word.
      + repeat constructor.
    - intros H. apply List.in_app_iff in H as [H|H].
      + destruct H as [H|[]]. discriminate H.
      + apply List.in_app_iff in H. tauto. }
  repeat split; try assumption.
  unfold without_argument. rewrite Hc, Ha.
  replace (u ++ tok ++ lit " " ++ w ++ v)
    with (u ++ (tok ++ lit " " ++ w) ++ v)
    by (now rewrite <- !List.app_assoc).
  rewrite token_cut; try assumption; [reflexivity|].
  destruct tok; [discriminate|exact Htok].
Qed.

(** [--horizontal] or [--vertical] alone in a text without other hyphens
    is cut out exactly. *)
Lemma stability_single_orientation (tok u v : pystr) :
  In tok [lit "--horizontal"; lit "--vertical"] ->
  ~ In 45%N u -> ~ In 45%N v ->
  without_orientation (u ++ tok ++ v) = u ++ v.
Proof.
  intros Htok Hu Hv. unfold without_orientation.
  repeat (destruct Htok as [<-|Htok]);
    [delete_token (lit "--horizontal") u v;
     delete_token (lit "--vertical") u v; reflexivity ..|].
  destruct Htok.
Qed.

(** A prompt that holds one [--ratio] or one [--seed] with its word and
    neither em dashes, double spaces nor other hyphens: the request is
    built, carries the word, and its prompt is the text around them. *)
Lemma stability_argument_request (e : t) (a : args) (tok u w v : pystr) :
  a_prompt a = Some (u ++ tok ++ lit " " ++ w ++ v) ->
  contains emdash (u ++ tok ++ lit " " ++ w ++ v) = false ->
  contains (lit "  ") (u ++ tok ++ lit " " ++ w ++ v) = false ->
  ~ In 45%N u -> ~ In 45%N w -> ~ In 45%N v ->
  w <> [] -> List.Forall (fun c => isspace c = false) w ->
  (v = [] \/ exists c v', v = c :: v' /\ isspace c = true) ->
  (tok = lit "--ratio" ->
   imagine_request e a
   = Val (set_output_format (a_output_format a)
            (set_prompt (u ++ v) (set_aspect_ratio w (seed_data e a)))))
  /\ (tok = lit "--seed" ->
       forall n, int_of_str w = Some n ->
       imagine_request e a
       = Val (set_output_format (a_output_format a)
                (set_prompt (u ++ v) (set_seed n (seed_data e a))))).
Proof.
  intros Hp Hdash Hdouble Hu Hw Hv Hne Hword Htail.
  assert (Hrest : ~ In 45%N (lit " " ++ w ++ v)).
  { intros H. apply List.in_app_iff in H as [H|H].
    - destruct H as [H|[]]. discriminate H.
    - apply List.in_app_iff in H. tauto. }
  assert (Hnorm : normalised (u ++ tok ++ lit " " ++ w ++ v)
                  = u ++ tok ++ lit " " ++ w ++ v).
  { unfold normalised.
    rewrite (replace_absent emdash) by (discriminate || assumption).
    now rewrite replace_absent by (discriminate || assumption). }
  assert (Hnonempty : u ++ tok ++ lit " " ++ w ++ v <> []).
  { intros H. apply List.app_eq_nil in H as [_ H].
    apply List.app_eq_nil in H as [_ H]. discriminate H. }
  assert (Huv : ~ In 45%N (u ++ v)) by now apply hyphen_free_app.
  split.
  - intros ->.
    destruct (stability_single_argument (lit "--ratio") u w v)
      as (Hc & Ha & Hcut); try assumption; [reflexivity|].
    unfold without_argument in Hcut. rewrite Hc, Ha in Hcut.
    unfold imagine_request. rewrite Hp, decide_False by assumption.
    cbv zeta. fold (normalised (u ++ lit "--ratio" ++ lit " " ++ w ++ v)).
    rewrite Hnorm. unfold directives.
    do 2 (rewrite token_step by apply literal_not_empty; cbv beta iota).
    do 2 (rewrite (replace_absent _ [] (u ++ lit "--ratio" ++ lit " " ++ w ++ v))
            by first [discriminate
                     | apply token_other; first [reflexivity | assumption]]).
    rewrite Hc, Ha. cbn [bind]. cbv beta iota.
    change (lit "--ratio " ++ w) with (lit "--ratio" ++ lit " " ++ w).
    rewrite Hcut.
    rewrite (token_absent (lit "--negative") (u ++ v)) by (reflexivity || assumption).
    cbn [bind]. cbv beta iota.
    rewrite (token_absent (lit "--seed") (u ++ v)) by (reflexivity || assumption).
    reflexivity.
  - intros -> n Hn.
    destruct (stability_single_argument (lit "--seed") u w v)
      as (Hc & Ha & Hcut); try assumption; [reflexivity|].
    unfold without_argument in Hcut. rewrite Hc, Ha in Hcut.
    unfold imagine_request. rewrite Hp, decide_False by assumption.
    cbv zeta. fold (normalised (u ++ lit "--seed" ++ lit " " ++ w ++ v)).
    rewrite Hnorm. unfold directives.
    do 2 (rewrite token_step by apply literal_not_empty; cbv beta iota).
    do 2 (rewrite (replace_absent _ [] (u ++ lit "--seed" ++ lit " " ++ w ++ v))
            by first [discriminate
                     | apply token_other; first [reflexivity | assumption]]).
    rewrite (token_other (lit "--ratio") (lit "--seed") u (lit " " ++ w ++ v))
      by (reflexivity || assumption).
    cbn [bind]. cbv beta iota.
    rewrite (token_other (lit "--negative") (lit "--seed") u (lit " " ++ w ++ v))
      by (reflexivity || assumption).
    cbn [bind]. cbv beta iota.
    rewrite Hc, Ha. cbn [bind]. rewrite Hn. cbn [bind]. cbv beta iota.
    change (lit "--seed " ++ w) with (lit "--seed" ++ lit " " ++ w).
    now rewrite Hcut.
Qed.

End StabilityDirectives.

(** ** Tokens, arguments and defaults in the request *)

(** The slip next to C3: on the Stability engine [--horizontal] and
    [--vertical] set the local [ratio] after the dict has been filled, so
    the request keeps the ratio it had. *)
Example stability_horizontal_keeps_ratio :
  StabilityEngine.imagine_request Sample.stability_open
    (StabilityEngine.default_args (Some (lit "a cat --horizontal")))
  = Val {| StabilityEngine.negative_prompt := None;
           StabilityEngine.aspect_ratio := Some (lit "1:1");
           StabilityEngine.seed := Some 0;
           StabilityEngine.prompt := Some (lit "a cat ");
           StabilityEngine.output_format := Some (lit "jpeg") |}.
Proof. vm_compute. reflexivity. Qed.






